(** * RotEncoder: an interrupt-driven quadrature decoder

    A shallow embedding of [src/RotEncoder.h] and [src/RotEncoder.cpp]
    (Arduino rotary encoder library, AVR) and the proofs of its
    specification.

    The C++ program is modelled as state-passing code over
    - the static pointer [RotEncoder::intHandle],
    - a heap of live [RotEncoder] objects, addressed by their [this] pointer,
    - a counter of the [digitalRead] calls made so far,
    and every method produces, next to its result and the new state, the
    list of its observable actions in program order: the calls into the
    Arduino core ([pinMode], [digitalWrite], [digitalRead],
    [attachInterrupt], [detachInterrupt], [cli], [sei], [ATOMIC_BLOCK]) and
    the accesses to the two [volatile] objects ([intHandle], [position]). *)

From Stdlib Require Import ZArith List Bool Lia.
From stdpp Require Import base option gmap.

Local Open Scope Z_scope.

(** ** Data model *)

(** Object addresses. [NULL] is [None] in an [option addr]. *)
Abbreviation addr := positive.

(** The dynamic type of an object decides what the virtual [getPinA] and
    [getPinB] return: 2 and 3 for [RotEncoder], the template arguments for
    [RotEncoderPins<PinA, PinB>]. *)
Inductive DynType : Type :=
| TRotEncoder
| TRotEncoderPins (PinA PinB : Z).

(** The data members of [class RotEncoder]. *)
Record RotEncoder : Type := mkRotEncoder {
  dyntype  : DynType;
  position : Z;       (* volatile long position = 0 *)
  cntflg   : bool;    (* bool cntflg = false        *)
  lrflg    : bool;    (* bool lrflg   (no initializer) *)
  inA      : bool;    (* bool inA, inB (no initializer) *)
  inB      : bool
}.

(** [long] on AVR is 32 bits wide. *)
Definition LONG_MAX : Z := 2147483647.
Definition LONG_MIN : Z := -2147483648.

(** The values of a [long]. *)
Definition in_long (z : Z) : Prop := LONG_MIN <= z <= LONG_MAX.

(** The result of 32-bit two's complement arithmetic: [z] modulo [2^32],
    taken in the range of [long]. *)
Definition wrap_long (z : Z) : Z := (z - LONG_MIN) mod 4294967296 + LONG_MIN.
Arguments wrap_long : simpl never.

Inductive PinMode : Type := INPUT | OUTPUT | INPUT_PULLUP.
Inductive IntMode : Type := LOW_LEVEL | CHANGE | RISING | FALLING.
Inductive Callback : Type := CB_isr.

(** Pin levels: [true] is [HIGH], [false] is [LOW]. *)
Definition LOW : bool := false.

(** Observable actions. *)
Inductive Event : Type :=
| EvCli
| EvSei
| EvAtomicEnter                                   (* ATOMIC_BLOCK(ATOMIC_RESTORESTATE) { *)
| EvAtomicLeave                                   (* }                                   *)
| EvLoadHandle (v : option addr)
| EvStoreHandle (v : option addr)
| EvLoadPosition (this : addr) (v : Z)
| EvStorePosition (this : addr) (v : Z)
| EvPinMode (pin : Z) (m : PinMode)
| EvDigitalWrite (pin : Z) (lvl : bool)
| EvDigitalRead (pin : Z) (lvl : bool)
| EvAttachInterrupt (n : Z) (cb : Callback) (m : IntMode)
| EvDetachInterrupt (n : Z).

Record State : Type := mkState {
  intHandle : option addr;             (* static IntHandleT intHandle *)
  heap      : gmap addr RotEncoder;    (* the live objects            *)
  reads     : nat                      (* digitalRead calls so far    *)
}.

(** The state at program start: [intHandle = NULL], no object. *)
Definition startup : State :=
  {| intHandle := None; heap := ∅; reads := 0%nat |}.

Definition set_intHandle (v : option addr) (s : State) : State :=
  {| intHandle := v; heap := heap s; reads := reads s |}.
Definition set_heap (h : gmap addr RotEncoder) (s : State) : State :=
  {| intHandle := intHandle s; heap := h; reads := reads s |}.
Definition tick (s : State) : State :=
  {| intHandle := intHandle s; heap := heap s; reads := S (reads s) |}.

Definition set_dyntype (t : DynType) (e : RotEncoder) : RotEncoder :=
  mkRotEncoder t (position e) (cntflg e) (lrflg e) (inA e) (inB e).
Definition set_position (p : Z) (e : RotEncoder) : RotEncoder :=
  mkRotEncoder (dyntype e) p (cntflg e) (lrflg e) (inA e) (inB e).
Definition set_cntflg (b : bool) (e : RotEncoder) : RotEncoder :=
  mkRotEncoder (dyntype e) (position e) b (lrflg e) (inA e) (inB e).
Definition set_lrflg (b : bool) (e : RotEncoder) : RotEncoder :=
  mkRotEncoder (dyntype e) (position e) (cntflg e) b (inA e) (inB e).
Definition set_inA (b : bool) (e : RotEncoder) : RotEncoder :=
  mkRotEncoder (dyntype e) (position e) (cntflg e) (lrflg e) b (inB e).
Definition set_inB (b : bool) (e : RotEncoder) : RotEncoder :=
  mkRotEncoder (dyntype e) (position e) (cntflg e) (lrflg e) (inA e) b.

(** The object with the freshly sampled inputs stored. *)
Definition with_inputs (a b : bool) (e : RotEncoder) : RotEncoder :=
  mkRotEncoder (dyntype e) (position e) (cntflg e) (lrflg e) a b.

(** ** The monad of method bodies

    A computation either finishes with a result, a state and the actions it
    performed, or has undefined behaviour (a member function called through
    a pointer to no live object, a null dereference), or has used up the
    fuel given to the re-sampling loop.
    Every member function starts with [deref this]. *)
Inductive Outcome (A : Type) : Type :=
| Done (a : A) (s : State) (tr : list Event)
| Undefined
| OutOfFuel.
Arguments Done {A} a s tr.
Arguments Undefined {A}.
Arguments OutOfFuel {A}.

Definition M (A : Type) : Type := State -> Outcome A.

Definition ret {A} (a : A) : M A := fun s => Done a s [].

Definition bind {A B} (m : M A) (k : A -> M B) : M B :=
  fun s =>
    match m s with
    | Done a s1 t1 =>
        match k a s1 with
        | Done b s2 t2 => Done b s2 (t1 ++ t2)
        | Undefined => Undefined
        | OutOfFuel => OutOfFuel
        end
    | Undefined => Undefined
    | OutOfFuel => OutOfFuel
    end.

Notation "'let!' x ':=' m 'in' k" := (bind m (fun x => k))
  (at level 10, x name, m at level 100, k at level 200, only parsing).
Notation "'exec' m 'then' k" := (bind m (fun _ => k))
  (at level 10, m at level 100, k at level 200, only parsing).

Definition undefined {A} : M A := fun _ => Undefined.
Definition emit (e : Event) : M unit := fun s => Done tt s [e].

(** Access to the object [*this]. *)
Definition deref (this : addr) : M RotEncoder :=
  fun s => match heap s !! this with
           | Some e => Done e s []
           | None => Undefined
           end.
Definition modify (this : addr) (f : RotEncoder -> RotEncoder) : M unit :=
  fun s => match heap s !! this with
           | Some e => Done tt (set_heap (<[this := f e]> (heap s)) s) []
           | None => Undefined
           end.

(** Accesses to the volatile objects. *)
Definition load_intHandle : M (option addr) :=
  fun s => Done (intHandle s) s [EvLoadHandle (intHandle s)].
Definition store_intHandle (v : option addr) : M unit :=
  fun s => Done tt (set_intHandle v s) [EvStoreHandle v].
Definition load_position (this : addr) : M Z :=
  let! e := deref this in
  exec emit (EvLoadPosition this (position e)) then
  ret (position e).
Definition store_position (this : addr) (v : Z) : M unit :=
  exec modify this (set_position v) then
  emit (EvStorePosition this v).

(** [position++] and [position--] on a [long]: load, add, store. The
    addition is that of the 32-bit machine: from [LONG_MAX] the counter goes
    to [LONG_MIN], and from [LONG_MIN] down to [LONG_MAX]. *)
Definition incr_position (this : addr) : M unit :=
  let! p := load_position this in
  store_position this (wrap_long (p + 1)).
Definition decr_position (this : addr) : M unit :=
  let! p := load_position this in
  store_position this (wrap_long (p - 1)).

(** The Arduino core and avr-libc. *)
Definition ATOMIC_BLOCK {A} (body : M A) : M A :=
  exec emit EvAtomicEnter then
  let! r := body in
  exec emit EvAtomicLeave then
  ret r.
Definition cli : M unit := emit EvCli.
Definition sei : M unit := emit EvSei.
Definition pinMode (pin : Z) (m : PinMode) : M unit := emit (EvPinMode pin m).
Definition digitalWrite (pin : Z) (lvl : bool) : M unit := emit (EvDigitalWrite pin lvl).
Definition attachInterrupt (n : Z) (cb : Callback) (m : IntMode) : M unit :=
  emit (EvAttachInterrupt n cb m).
Definition detachInterrupt (n : Z) : M unit := emit (EvDetachInterrupt n).

(** ** The class *)

Definition pinA_of (t : DynType) : Z :=
  match t with TRotEncoder => 2 | TRotEncoderPins a _ => a end.
Definition pinB_of (t : DynType) : Z :=
  match t with TRotEncoder => 3 | TRotEncoderPins _ b => b end.

Definition getPinA (this : addr) : M Z :=
  let! e := deref this in ret (pinA_of (dyntype e)).
Definition getPinB (this : addr) : M Z :=
  let! e := deref this in ret (pinB_of (dyntype e)).

Definition enPinA (this : addr) : M unit :=
  let! p := getPinA this in pinMode p INPUT_PULLUP.
Definition enPinB (this : addr) : M unit :=
  let! p := getPinB this in pinMode p INPUT_PULLUP.
Definition diPinA (this : addr) : M unit :=
  let! p := getPinA this in
  exec digitalWrite p LOW then
  let! q := getPinA this in
  pinMode q OUTPUT.
Definition diPinB (this : addr) : M unit :=
  let! p := getPinB this in
  exec digitalWrite p LOW then
  let! q := getPinB this in
  pinMode q OUTPUT.

Section Platform.

(** The board's [digitalPinToInterrupt] macro. *)
Variable digitalPinToInterrupt : Z -> Z.

(** The inputs: [level n pin] is the level that the call number [n] of
    [digitalRead] returns when it reads [pin]. *)
Variable level : nat -> Z -> bool.

Definition digitalRead (pin : Z) : M bool :=
  fun s => let v := level (reads s) pin in
           Done v (tick s) [EvDigitalRead pin v].

Definition rdPinA (this : addr) : M bool :=
  let! p := getPinA this in
  let! v := digitalRead p in
  ret (negb v).
Definition rdPinB (this : addr) : M bool :=
  let! p := getPinB this in
  let! v := digitalRead p in
  ret (negb v).

(** [RotEncoder::begin]. *)
Definition begin (this : addr) : M bool :=
  exec deref this then
  let! h := load_intHandle in
  match h with
  | None =>
      exec ATOMIC_BLOCK (store_intHandle (Some this)) then
      exec enPinA this then
      exec enPinB this then
      let! a := getPinA this in
      exec attachInterrupt (digitalPinToInterrupt a) CB_isr CHANGE then
      let! b := getPinB this in
      exec attachInterrupt (digitalPinToInterrupt b) CB_isr CHANGE then
      ret true
  | Some _ => ret false
  end.

(** [RotEncoder::end]. *)
Definition end_ (this : addr) : M bool :=
  exec deref this then
  let! h := load_intHandle in
  if decide (h = Some this) then
    exec ATOMIC_BLOCK (store_intHandle None) then
    let! a := getPinA this in
    exec detachInterrupt (digitalPinToInterrupt a) then
    let! b := getPinB this in
    exec detachInterrupt (digitalPinToInterrupt b) then
    ret true
  else ret false.

(** [RotEncoder::getPosition]. *)
Definition getPosition (this : addr) : M Z :=
  exec deref this then
  ATOMIC_BLOCK (load_position this).

(** The loop [do { inA = rdPinA(); inB = rdPinB(); }
    while ((inA != rdPinA()) || (inB != rdPinB()));] of
    [RotEncoder::intr]. The right operand of [||] is evaluated only when
    the left one is false. *)
Fixpoint resample (fuel : nat) (this : addr) : M unit :=
  match fuel with
  | O => fun _ => OutOfFuel
  | S fuel' =>
      let! a := rdPinA this in
      exec modify this (set_inA a) then
      let! b := rdPinB this in
      exec modify this (set_inB b) then
      let! e := deref this in
      let! a' := rdPinA this in
      if xorb (inA e) a' then resample fuel' this
      else
        let! e' := deref this in
        let! b' := rdPinB this in
        if xorb (inB e') b' then resample fuel' this
        else ret tt
  end.

(** The [if (inA) ... else ...] of [RotEncoder::intr]. *)
Definition classify (this : addr) : M unit :=
  let! e := deref this in
  if inA e then
    if inB e then
      modify this (set_cntflg true)
    else
      exec diPinA this then
      let! e1 := deref this in
      exec (if negb (lrflg e1) && cntflg e1 then incr_position this else ret tt) then
      exec modify this (set_lrflg true) then
      modify this (set_cntflg false)
  else
    if inB e then
      exec diPinB this then
      let! e1 := deref this in
      exec (if lrflg e1 && cntflg e1 then decr_position this else ret tt) then
      exec modify this (set_lrflg false) then
      modify this (set_cntflg false)
    else
      ret tt.

(** [RotEncoder::intr]. *)
Definition intr (fuel : nat) (this : addr) : M unit :=
  exec deref this then
  exec cli then
  exec enPinA this then
  exec enPinB this then
  exec resample fuel this then
  exec classify this then
  sei.

(** [RotEncoder::isr]: [if (intHandle != NULL) intHandle->intr();]. *)
Definition isr (fuel : nat) : M unit :=
  let! h := load_intHandle in
  match h with
  | None => ret tt
  | Some _ =>
      let! h' := load_intHandle in
      match h' with
      | Some this => intr fuel this
      | None => undefined
      end
  end.

(** Construction of an object of dynamic type [t] in free storage at
    [this]. The members without initializer start with whatever the
    storage holds, here [junk]. *)
Definition construct (this : addr) (t : DynType) (junk : bool * bool * bool) : M unit :=
  fun s =>
    match heap s !! this with
    | Some _ => Undefined
    | None =>
        let e := {| dyntype := t; position := 0; cntflg := false;
                    lrflg := junk.1.1; inA := junk.1.2; inB := junk.2 |} in
        Done tt (set_heap (<[this := e]> (heap s)) s) []
    end.

(** Destruction: [virtual ~RotEncoder() { end(); }]. While the body of
    [~RotEncoder] runs the dynamic type of the object is [RotEncoder], so
    the virtual calls inside [end] reach the versions of the base class;
    afterwards the object is gone. *)
Definition destroy (this : addr) : M unit :=
  exec modify this (set_dyntype TRotEncoder) then
  exec end_ this then
  fun s => Done tt (set_heap (delete this (heap s)) s) [].

(** What a successful [begin] does, in program order. *)
Definition begin_events (this : addr) (e : RotEncoder) : list Event :=
  [ EvLoadHandle None;
    EvAtomicEnter; EvStoreHandle (Some this); EvAtomicLeave;
    EvPinMode (pinA_of (dyntype e)) INPUT_PULLUP;
    EvPinMode (pinB_of (dyntype e)) INPUT_PULLUP;
    EvAttachInterrupt (digitalPinToInterrupt (pinA_of (dyntype e))) CB_isr CHANGE;
    EvAttachInterrupt (digitalPinToInterrupt (pinB_of (dyntype e))) CB_isr CHANGE ].

(** What a successful [end] does, in program order. *)
Definition end_events (this : addr) (e : RotEncoder) : list Event :=
  [ EvLoadHandle (Some this);
    EvAtomicEnter; EvStoreHandle None; EvAtomicLeave;
    EvDetachInterrupt (digitalPinToInterrupt (pinA_of (dyntype e)));
    EvDetachInterrupt (digitalPinToInterrupt (pinB_of (dyntype e))) ].

(** The four reads of one round of the loop that starts after [n] reads,
    for an object of dynamic type [t]. *)
Definition round_events (t : DynType) (n : nat) : list Event :=
  [ EvDigitalRead (pinA_of t) (level n (pinA_of t));
    EvDigitalRead (pinB_of t) (level (1 + n) (pinB_of t));
    EvDigitalRead (pinA_of t) (level (2 + n) (pinA_of t));
    EvDigitalRead (pinB_of t) (level (3 + n) (pinB_of t)) ].

(** The values stored in [inA] and [inB] by that round. *)
Definition sampleA (t : DynType) (n : nat) : bool := negb (level n (pinA_of t)).
Definition sampleB (t : DynType) (n : nat) : bool := negb (level (1 + n) (pinB_of t)).

(** The round is the last one: both pins read the same twice. *)
Definition agrees (t : DynType) (n : nat) : bool :=
  eqb (level n (pinA_of t)) (level (2 + n) (pinA_of t))
  && eqb (level (1 + n) (pinB_of t)) (level (3 + n) (pinB_of t)).

(** The reads made by a round that is not the last one: the second read of
    pin B is skipped when the two reads of pin A differ. *)
Definition round_reads (t : DynType) (n : nat) : nat :=
  if eqb (level n (pinA_of t)) (level (2 + n) (pinA_of t)) then 4 else 3.

(** The state after a round of [k] reads. *)
Definition after_round (this : addr) (e : RotEncoder) (s : State) (k : nat) : State :=
  {| intHandle := intHandle s;
     heap := <[this := with_inputs (sampleA (dyntype e) (reads s))
                                   (sampleB (dyntype e) (reads s)) e]> (heap s);
     reads := k + reads s |}.

(** Inputs that no longer change from read number [N] on. *)
Definition stable_from (N : nat) (t : DynType) : Prop :=
  forall n, (N <= n)%nat ->
    level n (pinA_of t) = level N (pinA_of t) /\
    level n (pinB_of t) = level N (pinB_of t).

End Platform.

(** The members after the [if (inA) ... else ...] of [intr], as a function
    of the members before it (proved equal to what [classify] computes in
    [classify_run]). *)
Definition transition (e : RotEncoder) : RotEncoder :=
  match inA e, inB e with
  | true, true => set_cntflg true e
  | true, false =>
      set_cntflg false (set_lrflg true
        (if negb (lrflg e) && cntflg e
         then set_position (wrap_long (position e + 1)) e else e))
  | false, true =>
      set_cntflg false (set_lrflg false
        (if lrflg e && cntflg e
         then set_position (wrap_long (position e - 1)) e else e))
  | false, false => e
  end.

(** The observable actions of the [if (inA) ... else ...] of [intr]. *)
Definition classify_events (this : addr) (e : RotEncoder) : list Event :=
  match inA e, inB e with
  | true, false =>
      [EvDigitalWrite (pinA_of (dyntype e)) LOW; EvPinMode (pinA_of (dyntype e)) OUTPUT]
      ++ (if negb (lrflg e) && cntflg e
          then [EvLoadPosition this (position e);
                EvStorePosition this (wrap_long (position e + 1))]
          else [])
  | false, true =>
      [EvDigitalWrite (pinB_of (dyntype e)) LOW; EvPinMode (pinB_of (dyntype e)) OUTPUT]
      ++ (if lrflg e && cntflg e
          then [EvLoadPosition this (position e);
                EvStorePosition this (wrap_long (position e - 1))]
          else [])
  | _, _ => []
  end.

(** The actions [t] followed by the outcome [o]. *)
Definition prepend {A} (t : list Event) (o : Outcome A) : Outcome A :=
  match o with
  | Done a s t' => Done a s (t ++ t')
  | Undefined => Undefined
  | OutOfFuel => OutOfFuel
  end.

(** The members after an invocation of [intr] that sampled the stable pair
    [ab]. *)
Definition handle (ab : bool * bool) (e : RotEncoder) : RotEncoder :=
  transition (with_inputs ab.1 ab.2 e).

(** A run of the decoder on the object [this]: the handler is invoked once
    per element of the list, and the invocation for [ab] ends with
    [(inA, inB) = ab], the stable pair it sampled. *)
Inductive observed_run (level : nat -> Z -> bool) (this : addr) :
  list (bool * bool) -> State -> State -> Prop :=
| run_done s : observed_run level this [] s s
| run_intr fuel s s1 s2 tr e1 ab obs :
    intr level fuel this s = Done tt s1 tr ->
    heap s1 !! this = Some e1 ->
    (inA e1, inB e1) = ab ->
    observed_run level this obs s1 s2 ->
    observed_run level this (ab :: obs) s s2.

(** The two rotations. *)
Definition clockwise : list (bool * bool) :=
  [(false, false); (true, false); (true, true); (false, true); (false, false)].
Definition counter_clockwise : list (bool * bool) :=
  [(false, false); (false, true); (true, true); (true, false); (false, false)].

(** The registration slot along a list of actions: [true] when every call
    of [detachInterrupt] in [tr] is made while the last store to [intHandle]
    was a store of [NULL]; [cleared] tells whether that holds at the start. *)
Fixpoint detach_after_clear (cleared : bool) (tr : list Event) : bool :=
  match tr with
  | [] => true
  | EvStoreHandle None :: tr' => detach_after_clear true tr'
  | EvStoreHandle (Some _) :: tr' => detach_after_clear false tr'
  | EvDetachInterrupt _ :: tr' => cleared && detach_after_clear cleared tr'
  | _ :: tr' => detach_after_clear cleared tr'
  end.

(** [true] when every load of [position] in [tr] is made inside an
    [ATOMIC_BLOCK]; [inside] tells whether the list starts inside one. *)
Fixpoint loads_in_atomic (inside : bool) (tr : list Event) : bool :=
  match tr with
  | [] => true
  | EvAtomicEnter :: tr' => loads_in_atomic true tr'
  | EvAtomicLeave :: tr' => loads_in_atomic false tr'
  | EvLoadPosition _ _ :: tr' => inside && loads_in_atomic inside tr'
  | _ :: tr' => loads_in_atomic inside tr'
  end.

(** ** Inputs of the examples *)

(** [digitalPinToInterrupt] of the Arduino Nano. *)
Definition nano_digitalPinToInterrupt (pin : Z) : Z :=
  if pin =? 2 then 0 else if pin =? 3 then 1 else -1.

(** Pins 2 and 3 show, during the four reads of the handler invocation
    number [k], the pair number [k] of [obs]; a closed contact reads [LOW].
    After the list both contacts are open. *)
Definition levels_of (obs : list (bool * bool)) (n : nat) (pin : Z) : bool :=
  let ab := nth (Nat.div n 4) obs (false, false) in
  negb (if pin =? 2 then ab.1 else ab.2).

(** A [RotEncoder] at address 1, as constructed (with [false] in the
    members that have no initializer) and started by [begin]. *)
Definition fresh_encoder : RotEncoder :=
  {| dyntype := TRotEncoder; position := 0; cntflg := false;
     lrflg := false; inA := false; inB := false |}.
Definition started : State :=
  {| intHandle := Some 1%positive; heap := {[ 1%positive := fresh_encoder ]}; reads := 0 |}.

(** The same object before [begin]. *)
Definition constructed : State :=
  {| intHandle := None; heap := {[ 1%positive := fresh_encoder ]}; reads := 0 |}.

(** Lines that still move during the first six reads and rest [LOW]
    afterwards. *)
Definition settling (n : nat) (pin : Z) : bool :=
  (n <? 6)%nat && (n mod 3 =? 0)%nat.

(** ** Programs that use the class *)

(** What a program does with the class: it constructs and destroys
    objects, calls the three public member functions, and is interrupted
    (the interrupt vector runs [isr]). *)
Inductive Op : Type :=
| OpNew (this : addr) (t : DynType) (junk : bool * bool * bool)
| OpDelete (this : addr)
| OpBegin (this : addr)
| OpEnd (this : addr)
| OpGetPosition (this : addr)
| OpInterrupt (fuel : nat).

Definition run_op (d2i : Z -> Z) (level : nat -> Z -> bool) (op : Op) : M unit :=
  match op with
  | OpNew this t junk => construct this t junk
  | OpDelete this => destroy d2i this
  | OpBegin this => exec begin d2i this then ret tt
  | OpEnd this => exec end_ d2i this then ret tt
  | OpGetPosition this => exec getPosition this then ret tt
  | OpInterrupt fuel => isr level fuel
  end.

Fixpoint run_ops (d2i : Z -> Z) (level : nat -> Z -> bool) (ops : list Op) : M unit :=
  match ops with
  | [] => ret tt
  | op :: ops' => exec run_op d2i level op then run_ops d2i level ops'
  end.

(** The registered pointer, if any, points to a live object. *)
Definition slot_live (s : State) : Prop :=
  forall h, intHandle s = Some h -> is_Some (heap s !! h).

(** The number of observations of (1,1) in a run. *)
Fixpoint engagements (obs : list (bool * bool)) : nat :=
  match obs with
  | [] => O
  | (true, true) :: obs' => S (engagements obs')
  | _ :: obs' => engagements obs'
  end.

(** [k] times the cycle [cyc]. *)
Fixpoint turns (k : nat) (cyc : list (bool * bool)) : list (bool * bool) :=
  match k with
  | O => []
  | S k' => cyc ++ turns k' cyc
  end.

(** The mode of [pin] after the actions [tr], when it was [m] before: that
    of the last [pinMode] call for [pin]. *)
Fixpoint mode_after (pin : Z) (m : option PinMode) (tr : list Event) : option PinMode :=
  match tr with
  | [] => m
  | EvPinMode p x :: tr' => mode_after pin (if p =? pin then Some x else m) tr'
  | _ :: tr' => mode_after pin m tr'
  end.

Definition is_read (ev : Event) : bool :=
  match ev with EvDigitalRead _ _ => true | _ => false end.

(** The actions found in the body of [intr]: masking and unmasking
    interrupts, [pinMode], [digitalRead], [digitalWrite] of [LOW], and the
    accesses to [position]. *)
Definition handler_action (ev : Event) : bool :=
  match ev with
  | EvCli | EvSei | EvPinMode _ _ | EvDigitalRead _ _
  | EvLoadPosition _ _ | EvStorePosition _ _ => true
  | EvDigitalWrite _ lvl => negb lvl
  | _ => false
  end.

(** The actions [tr] are calls of [digitalRead], the first of which is
    call number [n], and each returned the level its pin has at that call. *)
Fixpoint reads_from (level : nat -> Z -> bool) (n : nat) (tr : list Event) : Prop :=
  match tr with
  | [] => True
  | EvDigitalRead pin lvl :: tr' => lvl = level n pin /\ reads_from level (S n) tr'
  | _ :: _ => False
  end.

(** Whether [isr] is attached to interrupt [n] after the actions [tr], when
    [a] tells whether it was before. *)
Fixpoint attached_after (n : Z) (a : bool) (tr : list Event) : bool :=
  match tr with
  | [] => a
  | EvAttachInterrupt m _ _ :: tr' => attached_after n (if m =? n then true else a) tr'
  | EvDetachInterrupt m :: tr' => attached_after n (if m =? n then false else a) tr'
  | _ :: tr' => attached_after n a tr'
  end.

(** A line that changes between any read and the next read but one. *)
Definition chattering (n : nat) (pin : Z) : bool := Nat.even (Nat.div2 n).

(** ** Running method bodies on a live object *)

Lemma bind_Done {A B} (m : M A) (k : A -> M B) s b s2 t :
  bind m k s = Done b s2 t ->
  exists a s1 t1 t2, m s = Done a s1 t1 /\ k a s1 = Done b s2 t2 /\ t = t1 ++ t2.
Proof.
  unfold bind. destruct (m s) as [a s1 t1| |]; try discriminate.
  destruct (k a s1) as [b' s2' t2| |] eqn:Hk; try discriminate.
  intros [= -> -> <-]. eauto 8.
Qed.

Lemma bind_run {A B} (m : M A) (k : A -> M B) s a s1 t1 :
  m s = Done a s1 t1 ->
  bind m k s = match k a s1 with
               | Done b s2 t2 => Done b s2 (t1 ++ t2)
               | Undefined => Undefined
               | OutOfFuel => OutOfFuel
               end.
Proof. intros H. unfold bind. now rewrite H. Qed.

Lemma deref_run this s e : heap s !! this = Some e -> deref this s = Done e s [].
Proof. intros H. unfold deref. now rewrite H. Qed.

Lemma modify_run this f s e :
  heap s !! this = Some e ->
  modify this f s = Done tt (set_heap (<[this := f e]> (heap s)) s) [].
Proof. intros H. unfold modify. now rewrite H. Qed.

Lemma getPinA_run this s e :
  heap s !! this = Some e -> getPinA this s = Done (pinA_of (dyntype e)) s [].
Proof. intros H. unfold getPinA. now rewrite (bind_run _ _ _ _ _ _ (deref_run _ _ _ H)). Qed.

Lemma getPinB_run this s e :
  heap s !! this = Some e -> getPinB this s = Done (pinB_of (dyntype e)) s [].
Proof. intros H. unfold getPinB. now rewrite (bind_run _ _ _ _ _ _ (deref_run _ _ _ H)). Qed.

Lemma enPinA_run this s e :
  heap s !! this = Some e ->
  enPinA this s = Done tt s [EvPinMode (pinA_of (dyntype e)) INPUT_PULLUP].
Proof. intros H. unfold enPinA. now rewrite (bind_run _ _ _ _ _ _ (getPinA_run _ _ _ H)). Qed.

Lemma enPinB_run this s e :
  heap s !! this = Some e ->
  enPinB this s = Done tt s [EvPinMode (pinB_of (dyntype e)) INPUT_PULLUP].
Proof. intros H. unfold enPinB. now rewrite (bind_run _ _ _ _ _ _ (getPinB_run _ _ _ H)). Qed.

Lemma diPinA_run this s e :
  heap s !! this = Some e ->
  diPinA this s = Done tt s [EvDigitalWrite (pinA_of (dyntype e)) LOW;
                             EvPinMode (pinA_of (dyntype e)) OUTPUT].
Proof.
  intros H. unfold diPinA.
  rewrite (bind_run _ _ _ _ _ _ (getPinA_run _ _ _ H)).
  unfold bind, digitalWrite, pinMode, emit.
  now rewrite (getPinA_run _ _ _ H).
Qed.

Lemma diPinB_run this s e :
  heap s !! this = Some e ->
  diPinB this s = Done tt s [EvDigitalWrite (pinB_of (dyntype e)) LOW;
                             EvPinMode (pinB_of (dyntype e)) OUTPUT].
Proof.
  intros H. unfold diPinB.
  rewrite (bind_run _ _ _ _ _ _ (getPinB_run _ _ _ H)).
  unfold bind, digitalWrite, pinMode, emit.
  now rewrite (getPinB_run _ _ _ H).
Qed.

Lemma load_position_run this s e :
  heap s !! this = Some e ->
  load_position this s = Done (position e) s [EvLoadPosition this (position e)].
Proof. intros H. unfold load_position. now rewrite (bind_run _ _ _ _ _ _ (deref_run _ _ _ H)). Qed.

Lemma store_position_run this v s e :
  heap s !! this = Some e ->
  store_position this v s =
    Done tt (set_heap (<[this := set_position v e]> (heap s)) s) [EvStorePosition this v].
Proof. intros H. unfold store_position. now rewrite (bind_run _ _ _ _ _ _ (modify_run _ _ _ _ H)). Qed.

(** Symbolic execution of method bodies: [mstep] runs the next call on a
    live object, [mprim] unfolds the primitives. *)
Ltac solve_live :=
  cbn [heap set_heap set_intHandle tick];
  first [ eassumption | apply lookup_insert_eq ].

Ltac mstep :=
  first
    [ erewrite deref_run by solve_live
    | erewrite getPinA_run by solve_live
    | erewrite getPinB_run by solve_live
    | erewrite enPinA_run by solve_live
    | erewrite enPinB_run by solve_live
    | erewrite diPinA_run by solve_live
    | erewrite diPinB_run by solve_live
    | erewrite load_position_run by solve_live
    | erewrite store_position_run by solve_live
    | erewrite modify_run by solve_live ];
  cbv beta iota.

Ltac mprim :=
  cbv beta iota delta
    [bind ret emit undefined ATOMIC_BLOCK load_intHandle store_intHandle
     cli sei pinMode digitalWrite attachInterrupt detachInterrupt].

Ltac mrun := repeat progress (mprim; try mstep).

(** Every method starts by using [*this]: on a dangling pointer nothing is
    defined. *)
Lemma bind_deref_dead {B} this (k : RotEncoder -> M B) s :
  heap s !! this = None -> bind (deref this) k s = Undefined.
Proof. intros H. unfold bind, deref. now rewrite H. Qed.

Section Lifecycle.

Variable d2i : Z -> Z.     (* digitalPinToInterrupt *)

Lemma begin_free this s e :
  heap s !! this = Some e -> intHandle s = None ->
  begin d2i this s = Done true (set_intHandle (Some this) s) (begin_events d2i this e).
Proof.
  intros H Hn. unfold begin. mprim. mstep. rewrite Hn.
  mrun. reflexivity.
Qed.

Lemma begin_busy this s e h :
  heap s !! this = Some e -> intHandle s = Some h ->
  begin d2i this s = Done false s [EvLoadHandle (Some h)].
Proof.
  intros H Hh. unfold begin. mprim. mstep. now rewrite Hh.
Qed.

Lemma end_registered this s e :
  heap s !! this = Some e -> intHandle s = Some this ->
  end_ d2i this s = Done true (set_intHandle None s) (end_events d2i this e).
Proof.
  intros H Hh. unfold end_. mprim. mstep. rewrite Hh.
  destruct (decide (Some this = Some this)) as [_|Hne]; [|congruence].
  mrun. reflexivity.
Qed.

Lemma end_other this s e :
  heap s !! this = Some e -> intHandle s <> Some this ->
  end_ d2i this s = Done false s [EvLoadHandle (intHandle s)].
Proof.
  intros H Hh. unfold end_. mprim. mstep.
  destruct (decide (intHandle s = Some this)) as [Heq|_]; [congruence|reflexivity].
Qed.

Lemma getPosition_run this s e :
  heap s !! this = Some e ->
  getPosition this s =
    Done (position e) s [EvAtomicEnter; EvLoadPosition this (position e); EvAtomicLeave].
Proof.
  intros H. unfold getPosition. mrun. reflexivity.
Qed.

End Lifecycle.

Lemma set_heap_same this s e :
  heap s !! this = Some e -> set_heap (<[this := e]> (heap s)) s = s.
Proof. intros H. destruct s as [h m n]. unfold set_heap. cbn in *. now rewrite insert_id. Qed.

Ltac mfields :=
  unfold set_dyntype, set_position, set_cntflg, set_lrflg, set_inA, set_inB, with_inputs;
  cbn [dyntype position cntflg lrflg inA inB negb andb orb xorb].

Ltac mstate :=
  unfold set_heap, set_intHandle, tick; cbn [heap intHandle reads Nat.add]; mfields;
  rewrite ?insert_insert_eq.

Ltac mdone :=
  unfold set_heap, set_intHandle, tick; cbn [heap intHandle reads]; mfields;
  rewrite ?insert_insert_eq; reflexivity.

Lemma classify_run this s e :
  heap s !! this = Some e ->
  classify this s =
    Done tt (set_heap (<[this := transition e]> (heap s)) s) (classify_events this e).
Proof.
  intros H. unfold classify, transition, classify_events, incr_position, decr_position.
  mprim. mstep.
  destruct e as [t p c l a b]; mfields.
  destruct a, b; mfields.
  - mrun. mdone.
  - mrun. mfields. destruct l, c; mfields; repeat progress (mrun; mfields); mdone.
  - mrun. mfields. destruct l, c; mfields; repeat progress (mrun; mfields); mdone.
  - now rewrite (set_heap_same _ _ _ H).
Qed.

Section Sampling.

Variable level : nat -> Z -> bool.

Lemma rdPinA_run this s e :
  heap s !! this = Some e ->
  rdPinA level this s =
    Done (negb (level (reads s) (pinA_of (dyntype e)))) (tick s)
         [EvDigitalRead (pinA_of (dyntype e)) (level (reads s) (pinA_of (dyntype e)))].
Proof. intros H. unfold rdPinA, digitalRead. mrun. reflexivity. Qed.

Lemma rdPinB_run this s e :
  heap s !! this = Some e ->
  rdPinB level this s =
    Done (negb (level (reads s) (pinB_of (dyntype e)))) (tick s)
         [EvDigitalRead (pinB_of (dyntype e)) (level (reads s) (pinB_of (dyntype e)))].
Proof. intros H. unfold rdPinB, digitalRead. mrun. reflexivity. Qed.

(** One round of the loop. *)
Lemma resample_round fuel this s e :
  heap s !! this = Some e ->
  resample level (S fuel) this s =
    if agrees level (dyntype e) (reads s)
    then Done tt (after_round level this e s 4) (round_events level (dyntype e) (reads s))
    else prepend (firstn (round_reads level (dyntype e) (reads s))
                         (round_events level (dyntype e) (reads s)))
           (resample level fuel this
              (after_round level this e s (round_reads level (dyntype e) (reads s)))).
Proof.
  intros H. cbn [resample].
  unfold agrees, round_reads, round_events, after_round, sampleA, sampleB.
  destruct e as [t p c l a0 b0]; mfields.
  repeat progress (mprim; try mstep;
                   try (erewrite rdPinA_run by solve_live);
                   try (erewrite rdPinB_run by solve_live);
                   cbv beta iota; mstate).
  destruct (level (reads s) (pinA_of t)), (level (S (S (reads s))) (pinA_of t));
    cbn [negb xorb eqb andb firstn];
    repeat progress (mprim; try mstep;
                     try (erewrite rdPinB_run by solve_live);
                     cbv beta iota; mstate);
    try (unfold prepend; destruct (resample _ _ _ _); reflexivity);
    destruct (level (S (reads s)) (pinB_of t)), (level (S (S (S (reads s)))) (pinB_of t));
    cbn [negb xorb eqb andb firstn]; try reflexivity;
    unfold prepend; destruct (resample _ _ _ _); reflexivity.
Qed.

(** When the loop ends, it ends with a round that started after some
    number [n] of reads and in which both pins read the same twice; [inA]
    and [inB] hold what that round read, and nothing else has changed. *)
Lemma resample_Done fuel this : forall s e s' tr,
  heap s !! this = Some e ->
  resample level fuel this s = Done tt s' tr ->
  exists n pre,
    (reads s <= n)%nat /\
    agrees level (dyntype e) n = true /\
    s' = {| intHandle := intHandle s;
            heap := <[this := with_inputs (sampleA level (dyntype e) n)
                                          (sampleB level (dyntype e) n) e]> (heap s);
            reads := 4 + n |} /\
    tr = pre ++ round_events level (dyntype e) n.
Proof.
  induction fuel as [|fuel IH]; intros s e s' tr H; [discriminate|].
  rewrite (resample_round _ _ _ _ H).
  destruct (agrees level (dyntype e) (reads s)) eqn:Hag.
  - intros [= <- <-]. exists (reads s), []. repeat split; auto.
  - set (k := round_reads level (dyntype e) (reads s)).
    assert (Hk : (3 <= k)%nat).
    { unfold k, round_reads. destruct (eqb _ _); lia. }
    destruct (resample level fuel this (after_round level this e s k)) as [[] s2 t2| |] eqn:Hr;
      try discriminate.
    cbn [prepend]. intros [= <- <-].
    eapply IH in Hr; [|unfold after_round; cbn [heap]; apply lookup_insert_eq].
    destruct Hr as (n & pre & Hn & Hagn & -> & ->).
    cbn [dyntype with_inputs position cntflg lrflg] in *.
    exists n, (firstn k (round_events level (dyntype e) (reads s)) ++ pre).
    unfold after_round in *. cbn [reads heap intHandle] in *.
    repeat split; [lia|assumption| |now rewrite app_assoc].
    unfold with_inputs. cbn [dyntype position cntflg lrflg].
    now rewrite insert_insert_eq.
Qed.

(** More fuel does not change the result. *)
Lemma resample_fuel fuel this : forall extra s r s' tr,
  resample level fuel this s = Done r s' tr ->
  resample level (fuel + extra) this s = Done r s' tr.
Proof.
  induction fuel as [|fuel IH]; intros extra s r s' tr; [discriminate|].
  destruct (heap s !! this) as [e|] eqn:H.
  - change (S fuel + extra)%nat with (S (fuel + extra)).
    rewrite !(resample_round _ _ _ _ H).
    destruct (agrees level (dyntype e) (reads s)); [trivial|].
    destruct (resample level fuel this _) as [r2 s2 t2| |] eqn:Hr; try discriminate.
    now rewrite (IH extra _ _ _ _ Hr).
  - cbn [resample]. unfold rdPinA, getPinA, bind, deref. now rewrite H.
Qed.

Lemma stable_agrees N t n : stable_from level N t -> (N <= n)%nat -> agrees level t n = true.
Proof.
  intros Hst Hn. unfold agrees.
  destruct (Hst n) as [-> _]; [lia|].
  destruct (Hst (2 + n)%nat) as [-> _]; [lia|].
  destruct (Hst (1 + n)%nat) as [_ ->]; [lia|].
  destruct (Hst (3 + n)%nat) as [_ ->]; [lia|].
  now rewrite !eqb_reflx.
Qed.

(** The loop ends once the inputs are stable: [S (N - reads s)] rounds
    are enough. *)
Lemma resample_terminates N this : forall k s e,
  heap s !! this = Some e ->
  stable_from level N (dyntype e) ->
  (N - reads s <= k)%nat ->
  exists s' tr, resample level (S k) this s = Done tt s' tr.
Proof.
  induction k as [|k IH]; intros s e H Hst Hk;
    rewrite (resample_round _ _ _ _ H);
    destruct (agrees level (dyntype e) (reads s)) eqn:Hag; eauto.
  - rewrite (stable_agrees N) in Hag; [discriminate|assumption|lia].
  - assert (Hlt : (reads s < N)%nat).
    { destruct (Nat.lt_ge_cases (reads s) N) as [|Hge]; [assumption|].
      rewrite (stable_agrees N) in Hag; [discriminate|assumption|assumption]. }
    set (j := round_reads level (dyntype e) (reads s)).
    assert (Hj : (3 <= j)%nat).
    { unfold j, round_reads. destruct (eqb _ _); lia. }
    destruct (IH (after_round level this e s j)
                 (with_inputs (sampleA level (dyntype e) (reads s))
                              (sampleB level (dyntype e) (reads s)) e))
      as (s' & tr & Hr).
    + unfold after_round. cbn [heap]. apply lookup_insert_eq.
    + exact Hst.
    + unfold after_round. cbn [reads]. lia.
    + rewrite Hr. cbn [prepend]. eauto.
Qed.

End Sampling.

Lemma transition_inputs e : inA (transition e) = inA e /\ inB (transition e) = inB e.
Proof. destruct e as [t p c l [] []], l, c; cbn; auto. Qed.

Lemma transition_dyntype e : dyntype (transition e) = dyntype e.
Proof.
  unfold transition.
  destruct (inA e), (inB e), (lrflg e), (cntflg e); reflexivity.
Qed.

Lemma transition_position e :
  position (transition e) =
    if inA e && negb (inB e) && negb (lrflg e) && cntflg e
    then wrap_long (position e + 1)
    else if negb (inA e) && inB e && lrflg e && cntflg e
         then wrap_long (position e - 1)
         else position e.
Proof.
  unfold transition.
  destruct (inA e), (inB e), (lrflg e), (cntflg e); reflexivity.
Qed.

(** 32-bit arithmetic. *)
Lemma wrap_long_id z : in_long z -> wrap_long z = z.
Proof.
  unfold in_long, wrap_long, LONG_MIN, LONG_MAX. intros Hz.
  rewrite Z.mod_small by lia. lia.
Qed.

Lemma wrap_long_range z : in_long (wrap_long z).
Proof.
  unfold in_long, wrap_long, LONG_MIN, LONG_MAX.
  pose proof (Z.mod_pos_bound (z - -2147483648) 4294967296 eq_refl). lia.
Qed.

Lemma wrap_long_add a b : wrap_long (wrap_long a + b) = wrap_long (a + b).
Proof.
  unfold wrap_long. f_equal.
  replace ((a - LONG_MIN) mod 4294967296 + LONG_MIN + b - LONG_MIN)
    with ((a - LONG_MIN) mod 4294967296 + b) by lia.
  rewrite Zplus_mod_idemp_l. f_equal. lia.
Qed.

Lemma wrap_long_max : wrap_long (LONG_MAX + 1) = LONG_MIN.
Proof. reflexivity. Qed.

Lemma wrap_long_min : wrap_long (LONG_MIN - 1) = LONG_MAX.
Proof. reflexivity. Qed.

Section Handler.

Variable level : nat -> Z -> bool.

Lemma intr_unfold fuel this s e :
  heap s !! this = Some e ->
  intr level fuel this s =
    prepend [EvCli; EvPinMode (pinA_of (dyntype e)) INPUT_PULLUP;
             EvPinMode (pinB_of (dyntype e)) INPUT_PULLUP]
      (match resample level fuel this s with
       | Done _ s1 t1 =>
           prepend t1
             (match classify this s1 with
              | Done _ s2 t2 => Done tt s2 (t2 ++ [EvSei])
              | Undefined => Undefined
              | OutOfFuel => OutOfFuel
              end)
       | Undefined => Undefined
       | OutOfFuel => OutOfFuel
       end).
Proof.
  intros H. unfold intr. mrun.
  destruct (resample level fuel this s) as [[] s1 t1| |]; cbn [prepend]; try reflexivity.
  destruct (classify this s1) as [[] s2 t2| |]; cbn [prepend]; reflexivity.
Qed.

(** An invocation of [intr] that returns has sampled, in its last round,
    a pair on which two reads agree, has applied [transition] to the
    members with that pair stored, and has changed nothing else. *)
Lemma intr_Done fuel this s e s' tr :
  heap s !! this = Some e ->
  intr level fuel this s = Done tt s' tr ->
  exists n pre,
    let t := dyntype e in
    let e1 := with_inputs (sampleA level t n) (sampleB level t n) e in
    (reads s <= n)%nat /\
    agrees level t n = true /\
    s' = {| intHandle := intHandle s;
            heap := <[this := transition e1]> (heap s);
            reads := 4 + n |} /\
    tr = [EvCli; EvPinMode (pinA_of t) INPUT_PULLUP; EvPinMode (pinB_of t) INPUT_PULLUP]
         ++ pre ++ round_events level t n ++ classify_events this e1 ++ [EvSei].
Proof.
  intros H. rewrite (intr_unfold _ _ _ _ H).
  destruct (resample level fuel this s) as [[] s1 t1| |] eqn:Hr; try discriminate.
  destruct (resample_Done _ _ _ _ _ _ _ H Hr) as (n & pre & Hn & Hag & -> & ->).
  erewrite classify_run by (cbn [heap]; apply lookup_insert_eq).
  cbn [prepend]. intros [= <- <-].
  exists n, pre. cbv zeta. repeat split; auto.
  - unfold set_heap. cbn [heap intHandle reads]. now rewrite insert_insert_eq.
  - now rewrite <- !app_assoc.
Qed.

(** X10. An invocation of [intr] returns when the inputs become stable. *)
Lemma intr_returns N this s e :
  heap s !! this = Some e ->
  stable_from level N (dyntype e) ->
  exists fuel s' tr, intr level fuel this s = Done tt s' tr.
Proof.
  intros H Hst.
  destruct (resample_terminates level N this (N - reads s) s e H Hst (Nat.le_refl _))
    as (s1 & t1 & Hr).
  exists (S (N - reads s)).
  rewrite (intr_unfold _ _ _ _ H), Hr.
  destruct (resample_Done _ _ _ _ _ _ _ H Hr) as (n & pre & _ & _ & -> & _).
  erewrite classify_run by (cbn [heap]; apply lookup_insert_eq).
  cbn [prepend]. eauto.
Qed.

(** What a run leaves in the object. *)
Lemma observed_run_object this obs s s' :
  observed_run level this obs s s' ->
  forall e, heap s !! this = Some e ->
    heap s' = <[this := fold_left (fun e ab => handle ab e) obs e]> (heap s) /\
    intHandle s' = intHandle s.
Proof.
  induction 1 as [s|fuel s s1 s2 tr e1 ab obs Hi He1 Hab _ IH]; intros e He.
  - cbn [fold_left]. now rewrite insert_id.
  - destruct (intr_Done _ _ _ _ _ _ He Hi) as (n & pre & _ & _ & -> & _).
    cbn [heap intHandle] in *.
    rewrite lookup_insert_eq in He1. injection He1 as <-.
    destruct (transition_inputs
                (with_inputs (sampleA level (dyntype e) n) (sampleB level (dyntype e) n) e))
      as [Ha Hb].
    rewrite Ha, Hb in Hab. cbn [with_inputs inA inB] in Hab. subst ab.
    destruct (IH _ (lookup_insert_eq _ _ _)) as [-> ->].
    cbn [fold_left]. unfold handle at 2. cbn [fst snd].
    now rewrite insert_insert_eq.
Qed.

Lemma observed_run_lookup this obs s s' e :
  observed_run level this obs s s' ->
  heap s !! this = Some e ->
  heap s' !! this = Some (fold_left (fun e ab => handle ab e) obs e).
Proof.
  intros Hrun He. destruct (observed_run_object _ _ _ _ Hrun e He) as [-> _].
  apply lookup_insert_eq.
Qed.

End Handler.

(** ** Lifecycle: [begin], [end], [getPosition], destruction *)

Section LifecycleClaims.

Variable d2i : Z -> Z.     (* digitalPinToInterrupt *)

Lemma begin_result this s r s' tr :
  begin d2i this s = Done r s' tr -> (r = true <-> intHandle s = None).
Proof.
  destruct (heap s !! this) as [e|] eqn:H.
  - destruct (intHandle s) as [h|] eqn:Hh.
    + rewrite (begin_busy _ _ _ _ _ H Hh). intros [= <- _ _]. split; discriminate.
    + rewrite (begin_free _ _ _ _ H Hh). intros [= <- _ _]. split; reflexivity.
  - unfold begin. now rewrite bind_deref_dead.
Qed.

Lemma end_result this s r s' tr :
  end_ d2i this s = Done r s' tr -> (r = true <-> intHandle s = Some this).
Proof.
  destruct (heap s !! this) as [e|] eqn:H.
  - destruct (decide (intHandle s = Some this)) as [Hh|Hh].
    + rewrite (end_registered _ _ _ _ H Hh). intros [= <- _ _]. split; auto.
    + rewrite (end_other _ _ _ _ H Hh). intros [= <- _ _]. split; [discriminate|contradiction].
  - unfold end_. now rewrite bind_deref_dead.
Qed.

(** C2. On a live object, [begin] returns [true] exactly when no instance
    is registered. Then it stores [this] in [intHandle] (inside an atomic
    block), sets both pins to [INPUT_PULLUP] and attaches [isr] to the
    interrupts of both pins on [CHANGE], in this order, and changes nothing
    else. When an instance is registered, it returns [false], leaves the
    whole state as it is and does nothing but load [intHandle]. Hence a
    second [begin] on the same instance returns [false] and leaves the
    state (counter and registration) as the first left it, and [begin] on a
    second instance while the first is registered returns [false]. *)
Theorem begin_iff_unregistered this s e :
  heap s !! this = Some e ->
  (forall r s' tr, begin d2i this s = Done r s' tr -> (r = true <-> intHandle s = None)) /\
  (intHandle s = None ->
     begin d2i this s =
       Done true (set_intHandle (Some this) s)
         [ EvLoadHandle None;
           EvAtomicEnter; EvStoreHandle (Some this); EvAtomicLeave;
           EvPinMode (pinA_of (dyntype e)) INPUT_PULLUP;
           EvPinMode (pinB_of (dyntype e)) INPUT_PULLUP;
           EvAttachInterrupt (d2i (pinA_of (dyntype e))) CB_isr CHANGE;
           EvAttachInterrupt (d2i (pinB_of (dyntype e))) CB_isr CHANGE ]) /\
  (forall h, intHandle s = Some h ->
     begin d2i this s = Done false s [EvLoadHandle (Some h)]) /\
  (forall s1 tr1, begin d2i this s = Done true s1 tr1 ->
     begin d2i this s1 = Done false s1 [EvLoadHandle (Some this)]) /\
  (forall other e2 s1 tr1,
     heap s !! other = Some e2 ->
     begin d2i this s = Done true s1 tr1 ->
     begin d2i other s1 = Done false s1 [EvLoadHandle (Some this)]).
Proof.
  intros H. split; [|split; [|split; [|split]]].
  - intros r s' tr. apply begin_result.
  - intros Hn. now rewrite (begin_free _ _ _ _ H Hn).
  - intros h Hh. apply (begin_busy _ _ _ _ _ H Hh).
  - intros s1 tr1 Hb.
    assert (Hn : intHandle s = None) by (apply (begin_result _ _ _ _ _ Hb); reflexivity).
    rewrite (begin_free _ _ _ _ H Hn) in Hb. injection Hb as <- _.
    now apply (begin_busy _ _ _ e).
  - intros other e2 s1 tr1 H2 Hb.
    assert (Hn : intHandle s = None) by (apply (begin_result _ _ _ _ _ Hb); reflexivity).
    rewrite (begin_free _ _ _ _ H Hn) in Hb. injection Hb as <- _.
    now apply (begin_busy _ _ _ e2).
Qed.

(** C3. On a live object, [end] returns [true] exactly when [intHandle]
    holds [this]. Then it stores [NULL] in [intHandle] (inside an atomic
    block) and afterwards calls [detachInterrupt] for the interrupt of pin A
    and for that of pin B, and changes nothing else: both calls are made
    when the slot is already cleared. Otherwise it returns [false], leaves
    the whole state as it is and does nothing but load [intHandle]. *)
Theorem end_iff_registered this s e :
  heap s !! this = Some e ->
  (forall r s' tr, end_ d2i this s = Done r s' tr -> (r = true <-> intHandle s = Some this)) /\
  (intHandle s = Some this ->
     end_ d2i this s =
       Done true (set_intHandle None s)
         [ EvLoadHandle (Some this);
           EvAtomicEnter; EvStoreHandle None; EvAtomicLeave;
           EvDetachInterrupt (d2i (pinA_of (dyntype e)));
           EvDetachInterrupt (d2i (pinB_of (dyntype e))) ]) /\
  (intHandle s <> Some this ->
     end_ d2i this s = Done false s [EvLoadHandle (intHandle s)]) /\
  (forall r s' tr, end_ d2i this s = Done r s' tr -> detach_after_clear false tr = true).
Proof.
  intros H. split; [|split; [|split]].
  - intros r s' tr. apply end_result.
  - intros Hh. now rewrite (end_registered _ _ _ _ H Hh).
  - intros Hh. apply (end_other _ _ _ _ H Hh).
  - intros r s' tr. destruct (decide (intHandle s = Some this)) as [Hh|Hh].
    + rewrite (end_registered _ _ _ _ H Hh). now intros [= _ _ <-].
    + rewrite (end_other _ _ _ _ H Hh). now intros [= _ _ <-].
Qed.

(** C7. On a live object, [getPosition] returns the current value of
    [position], which it loads between entering and leaving an atomic
    block, and leaves the whole state (every member of every object, and
    [intHandle]) as it is. *)
Theorem getPosition_snapshot this s e :
  heap s !! this = Some e ->
  getPosition this s =
    Done (position e) s [EvAtomicEnter; EvLoadPosition this (position e); EvAtomicLeave]
  /\ (forall r s' tr,
        getPosition this s = Done r s' tr ->
        r = position e /\ s' = s /\ loads_in_atomic false tr = true).
Proof.
  intros H. rewrite (getPosition_run _ _ _ H). split; [reflexivity|].
  intros r s' tr [= <- <- <-]. auto.
Qed.

(** The state in which the body of [~RotEncoder] runs. *)
Lemma destroy_unfold this s e :
  heap s !! this = Some e ->
  destroy d2i this s =
    match end_ d2i this (set_heap (<[this := set_dyntype TRotEncoder e]> (heap s)) s) with
    | Done _ s1 tr => Done tt (set_heap (delete this (heap s1)) s1) tr
    | Undefined => Undefined
    | OutOfFuel => OutOfFuel
    end.
Proof.
  intros H. unfold destroy. mrun.
  destruct (end_ d2i this _) as [r s1 tr| |]; [|reflexivity..].
  now rewrite app_nil_r.
Qed.

(** C8. Destroying a live object runs [end] on it (with the dynamic type
    of the base class) and then releases it, whatever [end] returns. When
    the object is the registered one, [intHandle] is [NULL] afterwards, the
    storage is free again, and [begin] succeeds on any object constructed
    afterwards. *)
Theorem destroy_ends this s e :
  heap s !! this = Some e ->
  (exists r s1 tr,
     end_ d2i this (set_heap (<[this := set_dyntype TRotEncoder e]> (heap s)) s)
       = Done r s1 tr /\
     destroy d2i this s = Done tt (set_heap (delete this (heap s1)) s1) tr) /\
  (intHandle s = Some this ->
     exists s' tr,
       destroy d2i this s = Done tt s' tr /\
       intHandle s' = None /\
       heap s' = delete this (heap s) /\
       (forall t junk, exists s2, construct this t junk s' = Done tt s2 []) /\
       (forall a t junk s2 tr2,
          construct a t junk s' = Done tt s2 tr2 ->
          exists tr3, begin d2i a s2 = Done true (set_intHandle (Some a) s2) tr3)).
Proof.
  intros H.
  set (s0 := set_heap (<[this := set_dyntype TRotEncoder e]> (heap s)) s).
  assert (H0 : heap s0 !! this = Some (set_dyntype TRotEncoder e))
    by (unfold s0; cbn [heap set_heap]; apply lookup_insert_eq).
  split.
  - rewrite (destroy_unfold _ _ _ H). fold s0.
    destruct (decide (intHandle s0 = Some this)) as [Hh|Hh].
    + rewrite (end_registered _ _ _ _ H0 Hh). eauto.
    + rewrite (end_other _ _ _ _ H0 Hh). eauto.
  - intros Hh. rewrite (destroy_unfold _ _ _ H). fold s0.
    rewrite (end_registered _ _ _ _ H0 Hh).
    eexists _, _. split; [reflexivity|].
    cbn [set_heap set_intHandle heap intHandle s0].
    unfold s0. cbn [set_heap heap intHandle reads].
    rewrite delete_insert_eq.
    split; [reflexivity|]. split; [reflexivity|]. split.
    + intros t junk. unfold construct. cbn [heap set_heap set_intHandle].
      rewrite lookup_delete_eq. eauto.
    + intros a t junk s2 tr2. unfold construct. cbn [heap set_heap set_intHandle].
      destruct (delete this (heap s) !! a) eqn:Ha; [discriminate|].
      intros [= <- _]. eexists. eapply begin_free.
      * cbn [set_heap heap]. apply lookup_insert_eq.
      * reflexivity.
Qed.

End LifecycleClaims.

(** ** The decoder *)

Lemma begin_heap d2i this s r s' tr :
  begin d2i this s = Done r s' tr -> heap s' = heap s.
Proof.
  destruct (heap s !! this) as [e|] eqn:H.
  - destruct (intHandle s) as [h|] eqn:Hh.
    + rewrite (begin_busy _ _ _ _ _ H Hh). now intros [= _ <- _].
    + rewrite (begin_free _ _ _ _ H Hh). now intros [= _ <- _].
  - unfold begin. now rewrite bind_deref_dead.
Qed.

Lemma end_heap d2i this s r s' tr :
  end_ d2i this s = Done r s' tr -> heap s' = heap s.
Proof.
  destruct (heap s !! this) as [e|] eqn:H.
  - destruct (decide (intHandle s = Some this)) as [Hh|Hh].
    + rewrite (end_registered _ _ _ _ H Hh). now intros [= _ <- _].
    + rewrite (end_other _ _ _ _ H Hh). now intros [= _ <- _].
  - unfold end_. now rewrite bind_deref_dead.
Qed.

Lemma getPosition_heap this s r s' tr :
  getPosition this s = Done r s' tr -> heap s' = heap s.
Proof.
  destruct (heap s !! this) as [e|] eqn:H.
  - rewrite (getPosition_run _ _ _ H). now intros [= _ <- _].
  - unfold getPosition. now rewrite bind_deref_dead.
Qed.

(** The counter after an invocation of [intr]. *)
Lemma intr_position level fuel this s e s' tr :
  heap s !! this = Some e ->
  intr level fuel this s = Done tt s' tr ->
  exists e',
    heap s' !! this = Some e' /\
    position e' =
      if inA e' && negb (inB e') && negb (lrflg e) && cntflg e
      then wrap_long (position e + 1)
      else if negb (inA e') && inB e' && lrflg e && cntflg e
           then wrap_long (position e - 1)
           else position e.
Proof.
  intros H Hi.
  destruct (intr_Done _ _ _ _ _ _ _ H Hi) as (n & pre & _ & _ & -> & _).
  eexists. split; [cbn [heap]; apply lookup_insert_eq|].
  destruct e as [t p c l a b].
  destruct (sampleA level _ n), (sampleB level _ n), l, c; reflexivity.
Qed.

Lemma wrap_long_sub a b : wrap_long (wrap_long a - b) = wrap_long (a - b).
Proof. unfold Z.sub. apply wrap_long_add. Qed.

Lemma wrap_long_succ z : in_long z -> z <> LONG_MAX -> wrap_long (z + 1) = z + 1.
Proof. unfold in_long. intros Hz Hne. apply wrap_long_id. unfold in_long. lia. Qed.

Lemma wrap_long_pred z : in_long z -> z <> LONG_MIN -> wrap_long (z - 1) = z - 1.
Proof. unfold in_long. intros Hz Hne. apply wrap_long_id. unfold in_long. lia. Qed.

(** C4, as the code has it. An invocation of [intr] leaves [position] of
    its object as it is or steps it by 1 in 32-bit arithmetic, and leaves
    every other object as it is. A counter that holds a [long] holds one
    afterwards, and its change is at most 1 in absolute value except in two
    cases: a step up at [LONG_MAX] goes to [LONG_MIN], and a step down at
    [LONG_MIN] goes to [LONG_MAX]. [begin], [end] and [getPosition] leave
    every object, hence every counter, as it is. *)
Theorem position_changes_only_in_intr :
  (forall level fuel this s s' tr e,
     heap s !! this = Some e ->
     intr level fuel this s = Done tt s' tr ->
     exists e',
       heap s' !! this = Some e' /\
       (position e' = position e \/
        position e' = wrap_long (position e + 1) \/
        position e' = wrap_long (position e - 1)) /\
       (in_long (position e) ->
          in_long (position e') /\
          (Z.abs (position e' - position e) <= 1 \/
           (position e = LONG_MAX /\ position e' = LONG_MIN) \/
           (position e = LONG_MIN /\ position e' = LONG_MAX))) /\
       (forall other, other <> this -> heap s' !! other = heap s !! other)) /\
  (forall d2i this s r s' tr, begin d2i this s = Done r s' tr -> heap s' = heap s) /\
  (forall d2i this s r s' tr, end_ d2i this s = Done r s' tr -> heap s' = heap s) /\
  (forall this s r s' tr, getPosition this s = Done r s' tr -> heap s' = heap s).
Proof.
  split; [|split; [|split]].
  - intros level fuel this s s' tr e H Hi.
    destruct (intr_position _ _ _ _ _ _ _ H Hi) as (e' & He' & Hp).
    exists e'. split; [assumption|].
    assert (Hcases : position e' = position e \/
                     position e' = wrap_long (position e + 1) \/
                     position e' = wrap_long (position e - 1)).
    { rewrite Hp. destruct (_ && cntflg e); [right; left; reflexivity|].
      destruct (_ && cntflg e); [right; right; reflexivity|left; reflexivity]. }
    split; [exact Hcases|]. split.
    + intros Hin. destruct Hcases as [->|[->| ->]].
      * split; [assumption|]. left. rewrite Z.sub_diag. cbn. lia.
      * split; [apply wrap_long_range|].
        destruct (Z.eq_dec (position e) LONG_MAX) as [Hmax|Hmax].
        -- right. left. split; [assumption|]. rewrite Hmax. reflexivity.
        -- left. rewrite (wrap_long_succ _ Hin Hmax). lia.
      * split; [apply wrap_long_range|].
        destruct (Z.eq_dec (position e) LONG_MIN) as [Hmin|Hmin].
        -- right. right. split; [assumption|]. rewrite Hmin. reflexivity.
        -- left. rewrite (wrap_long_pred _ Hin Hmin). lia.
    + destruct (intr_Done _ _ _ _ _ _ _ H Hi) as (n & pre & _ & _ & -> & _).
      intros other Hne. cbn [heap]. now apply lookup_insert_ne.
  - apply begin_heap.
  - apply end_heap.
  - apply getPosition_heap.
Qed.

(** C1, as the code has it. The counter holds a [long]. Over the states
    (0,0), (1,0), (1,1), (0,1), (0,0) it goes down by exactly 1 (in 32-bit
    arithmetic: from [LONG_MIN] to [LONG_MAX]) when at the start [cntflg] is
    clear or [lrflg] is set, and is unchanged otherwise; over the states
    (0,0), (0,1), (1,1), (1,0), (0,0) it goes up by exactly 1 (from
    [LONG_MAX] to [LONG_MIN]) when at the start [cntflg] is clear or [lrflg]
    is clear, and is unchanged otherwise. *)
Theorem quadrature_cycle level this s s' e :
  heap s !! this = Some e ->
  in_long (position e) ->
  (observed_run level this clockwise s s' ->
     exists e', heap s' !! this = Some e' /\
       position e' = (if negb (cntflg e) || lrflg e
                      then wrap_long (position e - 1) else position e) /\
       (LONG_MIN < position e ->
          position e' = position e - (if negb (cntflg e) || lrflg e then 1 else 0))) /\
  (observed_run level this counter_clockwise s s' ->
     exists e', heap s' !! this = Some e' /\
       position e' = (if negb (cntflg e) || negb (lrflg e)
                      then wrap_long (position e + 1) else position e) /\
       (position e < LONG_MAX ->
          position e' = position e + (if negb (cntflg e) || negb (lrflg e) then 1 else 0))).
Proof.
  intros H Hin. split; intros Hrun;
    (eexists; split; [apply (observed_run_lookup _ _ _ _ _ _ Hrun H)|]);
    destruct e as [t p c l a b]; cbn [position cntflg lrflg] in *;
    destruct c, l; cbn;
    rewrite ?wrap_long_sub, ?wrap_long_add, ?Z.add_simpl_r, ?Z.sub_simpl_r,
      ?(wrap_long_id p Hin);
    (split; [reflexivity|]); intros Hb;
    first [ apply wrap_long_pred | apply wrap_long_succ | lia ];
    first [ assumption | unfold in_long in Hin; lia ].
Qed.

(** C5. From a state in which [cntflg] is clear (no invocation has
    sampled (1,1) since the last one that sampled a single-asserted state,
    or since construction), an invocation that samples (0,0) followed by
    one that samples (1,0) leaves the counter as it is. *)
Theorem bounce_rejected level this s s' e :
  heap s !! this = Some e ->
  cntflg e = false ->
  observed_run level this [(false, false); (true, false)] s s' ->
  exists e', heap s' !! this = Some e' /\ position e' = position e.
Proof.
  intros H Hc Hrun.
  eexists; split; [apply (observed_run_lookup _ _ _ _ _ _ Hrun H)|].
  destruct e as [t p c l a b]. cbn in Hc. subst c. destruct l; reflexivity.
Qed.

(** C6. From every state, an invocation that samples (1,1) followed by
    one that samples (0,0) leaves the counter as it is. *)
Theorem reversal_keeps_position level this s s' e :
  heap s !! this = Some e ->
  observed_run level this [(true, true); (false, false)] s s' ->
  exists e', heap s' !! this = Some e' /\ position e' = position e.
Proof.
  intros H Hrun.
  eexists; split; [apply (observed_run_lookup _ _ _ _ _ _ Hrun H)|].
  destruct e as [t p c l a b]. reflexivity.
Qed.

Lemma reads_from_app level t1 : forall n t2,
  reads_from level n t1 ->
  reads_from level (n + length t1) t2 ->
  reads_from level n (t1 ++ t2).
Proof.
  induction t1 as [|ev t1 IH]; intros n t2 H1 H2.
  - cbn in H2. now rewrite Nat.add_0_r in H2.
  - destruct ev; cbn in H1; try contradiction. destruct H1 as [Hl H1].
    cbn. split; [assumption|]. apply IH; [assumption|].
    cbn [length] in H2. now rewrite Nat.add_succ_r in H2.
Qed.

(** The actions of the loop are its reads, one after the other, each
    returning the level of its pin at that read. *)
Lemma resample_reads_from level this : forall fuel s s' tr,
  resample level fuel this s = Done tt s' tr ->
  reads_from level (reads s) tr /\ reads s' = (reads s + length tr)%nat.
Proof.
  induction fuel as [|fuel IH]; intros s s' tr; [discriminate|].
  destruct (heap s !! this) as [e|] eqn:H.
  - rewrite (resample_round _ _ _ _ _ H).
    destruct (agrees level (dyntype e) (reads s)).
    + intros [= <- <-]. unfold after_round, round_events. cbn. split; [tauto|lia].
    + destruct (resample level fuel this _) as [[] s2 t2| |] eqn:Hr; try discriminate.
      cbn [prepend]. intros [= <- <-].
      destruct (IH _ _ _ Hr) as [Hf Hn]. unfold after_round in Hf, Hn. cbn [reads] in Hf, Hn.
      unfold round_reads, round_events in *.
      destruct (eqb _ _); cbn [firstn] in *.
      * split; [|rewrite Hn, length_app; cbn; lia].
        apply reads_from_app; [cbn; tauto|].
        cbn [length]. now rewrite Nat.add_comm.
      * split; [|rewrite Hn, length_app; cbn; lia].
        apply reads_from_app; [cbn; tauto|].
        cbn [length]. now rewrite Nat.add_comm.
  - cbn [resample]. unfold rdPinA, getPinA, bind, deref. now rewrite H.
Qed.

(** The result of the loop does not depend on the fuel. *)
Lemma resample_unique level this s fuel1 fuel2 s1 s2 t1 t2 :
  resample level fuel1 this s = Done tt s1 t1 ->
  resample level fuel2 this s = Done tt s2 t2 ->
  s2 = s1 /\ t2 = t1.
Proof.
  intros H1 H2. destruct (Nat.le_ge_cases fuel1 fuel2) as [Hle|Hle].
  - apply (resample_fuel _ _ _ (fuel2 - fuel1)) in H1.
    replace (fuel1 + (fuel2 - fuel1))%nat with fuel2 in H1 by lia.
    rewrite H1 in H2. now injection H2 as <- <-.
  - apply (resample_fuel _ _ _ (fuel1 - fuel2)) in H2.
    replace (fuel2 + (fuel1 - fuel2))%nat with fuel1 in H2 by lia.
    rewrite H2 in H1. now injection H1 as <- <-.
Qed.

(** C9. When the levels of the two pins no longer change from some read
    on, the loop of [intr] ends: with enough fuel the model returns, and
    every amount of fuel that returns gives the same result. Its actions
    are calls of [digitalRead] only, each returning the level its pin has at
    that call. The last four are the calls number [n], [n+1], [n+2], [n+3]
    on pin A, pin B, pin A, pin B; the two levels read from pin A are equal
    and so are the two read from pin B; [inA] and [inB] hold the negation
    of these levels (a closed contact reads [LOW]) and no other member has
    changed. *)
Theorem resample_stable level N this s e :
  heap s !! this = Some e ->
  stable_from level N (dyntype e) ->
  exists fuel s' tr n pre,
    resample level fuel this s = Done tt s' tr /\
    (forall fuel' s'' tr',
       resample level fuel' this s = Done tt s'' tr' -> s'' = s' /\ tr' = tr) /\
    reads_from level (reads s) tr /\
    reads s' = (reads s + length tr)%nat /\
    (reads s <= n)%nat /\
    reads s' = (4 + n)%nat /\
    tr = pre ++ [ EvDigitalRead (pinA_of (dyntype e)) (level n (pinA_of (dyntype e)));
                  EvDigitalRead (pinB_of (dyntype e)) (level (1 + n)%nat (pinB_of (dyntype e)));
                  EvDigitalRead (pinA_of (dyntype e)) (level (2 + n)%nat (pinA_of (dyntype e)));
                  EvDigitalRead (pinB_of (dyntype e)) (level (3 + n)%nat (pinB_of (dyntype e))) ] /\
    level (2 + n)%nat (pinA_of (dyntype e)) = level n (pinA_of (dyntype e)) /\
    level (3 + n)%nat (pinB_of (dyntype e)) = level (1 + n)%nat (pinB_of (dyntype e)) /\
    heap s' !! this =
      Some (with_inputs (negb (level n (pinA_of (dyntype e))))
                        (negb (level (1 + n)%nat (pinB_of (dyntype e)))) e).
Proof.
  intros H Hst.
  destruct (resample_terminates level N this (N - reads s) s e H Hst (Nat.le_refl _))
    as (s' & tr & Hr).
  destruct (resample_reads_from _ _ _ _ _ _ Hr) as [Hfrom Hlen].
  pose proof (fun fuel' s'' tr' => resample_unique level this s _ fuel' _ s'' _ tr' Hr) as Huniq.
  destruct (resample_Done _ _ _ _ _ _ _ H Hr) as (n & pre & Hn & Hag & Hs' & Htr).
  unfold agrees in Hag. apply andb_true_iff in Hag as [HA HB].
  apply eqb_prop in HA, HB.
  exists (S (N - reads s)), s', tr, n, pre.
  split; [exact Hr|]. split; [exact Huniq|]. split; [exact Hfrom|].
  split; [exact Hlen|]. split; [exact Hn|].
  split; [now rewrite Hs'|]. split; [exact Htr|].
  split; [now rewrite <- HA|]. split; [now rewrite <- HB|].
  rewrite Hs'. cbn [heap]. apply lookup_insert_eq.
Qed.

(** C10. A constructed object has [cntflg = false] and [position = 0],
    whatever the storage held; as long as the object is as constructed, an
    invocation of [intr] on it leaves [position] at 0, whatever it
    samples. *)
Theorem first_interrupt_keeps_position level this t junk s0 s1 tr0 :
  construct this t junk s0 = Done tt s1 tr0 ->
  (exists e, heap s1 !! this = Some e /\
     cntflg e = false /\ position e = 0 /\ lrflg e = junk.1.1) /\
  (forall s fuel s' tr,
     heap s !! this = heap s1 !! this ->
     intr level fuel this s = Done tt s' tr ->
     exists e', heap s' !! this = Some e' /\ position e' = 0).
Proof.
  unfold construct. destruct (heap s0 !! this); [discriminate|].
  intros [= <- _]. cbn [heap set_heap]. rewrite lookup_insert_eq. split.
  - eexists. split; [reflexivity|]. cbn. auto.
  - intros s fuel s' tr H Hi.
    destruct (intr_position _ _ _ _ _ _ _ H Hi) as (e' & He' & Hp).
    exists e'. split; [assumption|]. rewrite Hp. cbn [position cntflg].
    rewrite !andb_false_r. reflexivity.
Qed.

(** ** Examples *)

(** The states of the examples are those the code produces. *)
Lemma constructed_reached :
  construct 1 TRotEncoder (false, false, false) startup = Done tt constructed [].
Proof. reflexivity. Qed.

(** Builds a run on concrete inputs, one round of the loop per invocation. *)
Ltac run_example :=
  repeat (eapply run_intr with (fuel := 1%nat);
          [ vm_compute; reflexivity | vm_compute; reflexivity | reflexivity | ]);
  apply run_done.

Lemma begin_iff_unregistered_witness :
  heap constructed !! 1%positive = Some fresh_encoder /\
  begin nano_digitalPinToInterrupt 1 constructed =
    Done true started
      [ EvLoadHandle None; EvAtomicEnter; EvStoreHandle (Some 1%positive); EvAtomicLeave;
        EvPinMode 2 INPUT_PULLUP; EvPinMode 3 INPUT_PULLUP;
        EvAttachInterrupt 0 CB_isr CHANGE; EvAttachInterrupt 1 CB_isr CHANGE ] /\
  begin nano_digitalPinToInterrupt 1 started =
    Done false started [EvLoadHandle (Some 1%positive)].
Proof.
  split; [reflexivity|].
  destruct (begin_iff_unregistered nano_digitalPinToInterrupt 1 constructed fresh_encoder
              eq_refl) as (_ & Hfree & _ & Htwice & _).
  split; [exact (Hfree eq_refl)|].
  exact (Htwice _ _ (Hfree eq_refl)).
Defined.

Lemma end_iff_registered_witness :
  heap started !! 1%positive = Some fresh_encoder /\
  end_ nano_digitalPinToInterrupt 1 started =
    Done true constructed
      [ EvLoadHandle (Some 1%positive); EvAtomicEnter; EvStoreHandle None; EvAtomicLeave;
        EvDetachInterrupt 0; EvDetachInterrupt 1 ] /\
  end_ nano_digitalPinToInterrupt 1 constructed = Done false constructed [EvLoadHandle None].
Proof.
  split; [reflexivity|]. split.
  - destruct (end_iff_registered nano_digitalPinToInterrupt 1 started fresh_encoder eq_refl)
      as (_ & Hreg & _).
    exact (Hreg eq_refl).
  - destruct (end_iff_registered nano_digitalPinToInterrupt 1 constructed fresh_encoder
                eq_refl) as (_ & _ & Hother & _).
    apply Hother. discriminate.
Defined.

Lemma getPosition_snapshot_witness :
  heap started !! 1%positive = Some fresh_encoder /\
  getPosition 1 started =
    Done 0 started [EvAtomicEnter; EvLoadPosition 1 0; EvAtomicLeave].
Proof.
  split; [reflexivity|].
  exact (proj1 (getPosition_snapshot 1 started fresh_encoder eq_refl)).
Defined.

Lemma destroy_ends_witness :
  heap started !! 1%positive = Some fresh_encoder /\
  intHandle started = Some 1%positive /\
  exists s' tr,
    destroy nano_digitalPinToInterrupt 1 started = Done tt s' tr /\
    intHandle s' = None /\
    heap s' = delete 1%positive (heap started).
Proof.
  split; [reflexivity|]. split; [reflexivity|].
  destruct (proj2 (destroy_ends nano_digitalPinToInterrupt 1 started fresh_encoder eq_refl)
              eq_refl) as (s' & tr & Hd & Hh & Hheap & _).
  exists s', tr. auto.
Defined.

Lemma position_changes_only_in_intr_witness :
  let s := set_heap {[ 1%positive := set_cntflg true fresh_encoder ]} started in
  in_long 0 /\
  exists s' tr e',
    intr (levels_of [(true, false)]) 1 1 s = Done tt s' tr /\
    heap s' !! 1%positive = Some e' /\
    in_long (position e') /\
    (Z.abs (position e' - 0) <= 1 \/
     (0 = LONG_MAX /\ position e' = LONG_MIN) \/
     (0 = LONG_MIN /\ position e' = LONG_MAX)).
Proof.
  intros s.
  assert (Hin : in_long 0) by (split; discriminate).
  split; [exact Hin|].
  assert (Hi : exists s' tr, intr (levels_of [(true, false)]) 1 1 s = Done tt s' tr)
    by (eexists _, _; vm_compute; reflexivity).
  destruct Hi as (s' & tr & Hi).
  destruct (proj1 position_changes_only_in_intr _ 1%nat 1%positive s s' tr
              (set_cntflg true fresh_encoder) eq_refl Hi) as (e' & He' & _ & Hb & _).
  destruct (Hb Hin) as [Hr Hc].
  exists s', tr, e'. split; [exact Hi|]. split; [exact He'|]. split; [exact Hr|exact Hc].
Defined.

(** C4 as stated fails on the code: with the counter at [LONG_MAX], a
    pending step ([cntflg] set, [lrflg] clear) and the pins at (1,0), the
    handler executes [position++] and the counter holds [LONG_MIN]
    afterwards, a change of [2^32 - 1]. *)
Lemma counter_wraps_at_LONG_MAX :
  ~ (forall level fuel this s s' tr e e',
       heap s !! this = Some e ->
       intr level fuel this s = Done tt s' tr ->
       heap s' !! this = Some e' ->
       Z.abs (position e' - position e) <= 1).
Proof.
  intros C.
  set (e := set_cntflg true (set_position LONG_MAX fresh_encoder)).
  set (s := set_heap {[ 1%positive := e ]} started).
  assert (Hi : exists s' tr e',
             intr (levels_of [(true, false)]) 1 1 s = Done tt s' tr /\
             heap s' !! 1%positive = Some e' /\ position e' = LONG_MIN).
  { eexists _, _, _. split; [vm_compute; reflexivity|].
    split; [vm_compute; reflexivity|reflexivity]. }
  destruct Hi as (s' & tr & e' & Hi & He' & Hp).
  specialize (C _ 1%nat 1%positive s s' tr e e' eq_refl Hi He').
  rewrite Hp in C. apply Z.leb_le in C. vm_compute in C. discriminate C.
Qed.

Lemma quadrature_cycle_witness :
  in_long 0 /\
  exists s1 s2,
    observed_run (levels_of clockwise) 1 clockwise started s1 /\
    observed_run (levels_of counter_clockwise) 1 counter_clockwise started s2 /\
    (exists e', heap s1 !! 1%positive = Some e' /\ position e' = -1) /\
    (exists e', heap s2 !! 1%positive = Some e' /\ position e' = 1).
Proof.
  assert (Hin : in_long 0) by (split; discriminate).
  split; [exact Hin|].
  assert (H1 : exists s1, observed_run (levels_of clockwise) 1 clockwise started s1)
    by (eexists; run_example).
  assert (H2 : exists s2,
             observed_run (levels_of counter_clockwise) 1 counter_clockwise started s2)
    by (eexists; run_example).
  destruct H1 as [s1 H1], H2 as [s2 H2]. exists s1, s2.
  split; [exact H1|]. split; [exact H2|]. split.
  - destruct (proj1 (quadrature_cycle _ 1 started s1 fresh_encoder eq_refl Hin) H1)
      as (e' & He' & Hp & _).
    exists e'. split; [exact He'|exact Hp].
  - destruct (proj2 (quadrature_cycle _ 1 started s2 fresh_encoder eq_refl Hin) H2)
      as (e' & He' & Hp & _).
    exists e'. split; [exact He'|exact Hp].
Defined.

(** C1 as stated fails on the code: from a started, freshly constructed
    object the first sequence leaves the counter at -1 and the mirrored
    one at 1. *)
Lemma clockwise_counts_down :
  ~ (forall level this s s' e e',
       heap s !! this = Some e -> heap s' !! this = Some e' ->
       observed_run level this clockwise s s' -> position e' = position e + 1) /\
  ~ (forall level this s s' e e',
       heap s !! this = Some e -> heap s' !! this = Some e' ->
       observed_run level this counter_clockwise s s' -> position e' = position e - 1).
Proof.
  split; intros C.
  - assert (H : exists s', observed_run (levels_of clockwise) 1 clockwise started s')
      by (eexists; run_example).
    destruct H as [s' H].
    pose proof (observed_run_lookup _ _ _ _ _ fresh_encoder H eq_refl) as He'.
    specialize (C _ 1%positive started s' fresh_encoder _ eq_refl He' H).
    vm_compute in C. discriminate.
  - assert (H : exists s',
               observed_run (levels_of counter_clockwise) 1 counter_clockwise started s')
      by (eexists; run_example).
    destruct H as [s' H].
    pose proof (observed_run_lookup _ _ _ _ _ fresh_encoder H eq_refl) as He'.
    specialize (C _ 1%positive started s' fresh_encoder _ eq_refl He' H).
    vm_compute in C. discriminate.
Qed.

Lemma bounce_rejected_witness :
  exists s',
    observed_run (levels_of [(false, false); (true, false)]) 1
      [(false, false); (true, false)] started s' /\
    exists e', heap s' !! 1%positive = Some e' /\ position e' = 0.
Proof.
  assert (H : exists s',
             observed_run (levels_of [(false, false); (true, false)]) 1
               [(false, false); (true, false)] started s')
    by (eexists; run_example).
  destruct H as [s' H]. exists s'. split; [exact H|].
  exact (bounce_rejected _ 1 started s' fresh_encoder eq_refl eq_refl H).
Defined.

Lemma reversal_keeps_position_witness :
  exists s',
    observed_run (levels_of [(true, true); (false, false)]) 1
      [(true, true); (false, false)] started s' /\
    exists e', heap s' !! 1%positive = Some e' /\ position e' = 0.
Proof.
  assert (H : exists s',
             observed_run (levels_of [(true, true); (false, false)]) 1
               [(true, true); (false, false)] started s')
    by (eexists; run_example).
  destruct H as [s' H]. exists s'. split; [exact H|].
  exact (reversal_keeps_position _ 1 started s' fresh_encoder eq_refl H).
Defined.

Lemma settling_stable : stable_from settling 6 TRotEncoder.
Proof.
  intros n Hn. unfold settling.
  destruct (Nat.ltb_spec n 6) as [Hlt|_]; [lia|]. split; reflexivity.
Defined.

Lemma resample_stable_witness :
  heap started !! 1%positive = Some fresh_encoder /\
  stable_from settling 6 (dyntype fresh_encoder) /\
  exists fuel s' tr n pre,
    resample settling fuel 1 started = Done tt s' tr /\
    (forall fuel' s'' tr',
       resample settling fuel' 1 started = Done tt s'' tr' -> s'' = s' /\ tr' = tr) /\
    reads_from settling (reads started) tr /\
    reads s' = (reads started + length tr)%nat /\
    (reads started <= n)%nat /\
    reads s' = (4 + n)%nat /\
    tr = pre ++ [ EvDigitalRead 2 (settling n 2); EvDigitalRead 3 (settling (1 + n) 3);
                  EvDigitalRead 2 (settling (2 + n) 2);
                  EvDigitalRead 3 (settling (3 + n) 3) ] /\
    settling (2 + n) 2 = settling n 2 /\
    settling (3 + n) 3 = settling (1 + n) 3 /\
    heap s' !! 1%positive =
      Some (with_inputs (negb (settling n 2)) (negb (settling (1 + n) 3)) fresh_encoder).
Proof.
  split; [reflexivity|]. split; [exact settling_stable|].
  exact (resample_stable settling 6 1 started fresh_encoder eq_refl settling_stable).
Defined.

Lemma first_interrupt_keeps_position_witness :
  exists s1,
    construct 1 TRotEncoder (true, true, true) startup = Done tt s1 [] /\
    exists s' tr e',
      intr (levels_of [(true, false)]) 1 1 s1 = Done tt s' tr /\
      heap s' !! 1%positive = Some e' /\ position e' = 0.
Proof.
  assert (Hc : exists s1, construct 1 TRotEncoder (true, true, true) startup = Done tt s1 [])
    by (eexists; vm_compute; reflexivity).
  destruct Hc as [s1 Hc]. exists s1. split; [exact Hc|].
  assert (Hi : exists s' tr, intr (levels_of [(true, false)]) 1 1 s1 = Done tt s' tr).
  { pose proof Hc as Hc'. vm_compute in Hc'. injection Hc' as <-.
    eexists _, _. vm_compute. reflexivity. }
  destruct Hi as (s' & tr & Hi).
  destruct (proj2 (first_interrupt_keeps_position (levels_of [(true, false)]) _ _ _ _ _ _ Hc)
              s1 1%nat s' tr eq_refl Hi) as (e' & He' & Hp).
  exists s', tr, e'. auto.
Defined.

(** ** Dispatch *)

(** With no instance registered, [isr] does nothing but load [intHandle]:
    after a successful [end] an interrupt that still arrives reaches no
    object. *)
Lemma isr_unregistered level fuel s :
  intHandle s = None -> isr level fuel s = Done tt s [EvLoadHandle None].
Proof. intros H. unfold isr. mprim. now rewrite H. Qed.

(** With [this] registered, [isr] loads [intHandle] twice and runs [intr]
    on [this]. *)
Lemma isr_registered level fuel this s :
  intHandle s = Some this ->
  isr level fuel s =
    prepend [EvLoadHandle (Some this); EvLoadHandle (Some this)] (intr level fuel this s).
Proof.
  intros H. unfold isr. mprim. rewrite !H.
  destruct (intr level fuel this s); reflexivity.
Qed.

(** ** Lifecycle, continued *)

Lemma set_intHandle_same s : set_intHandle (intHandle s) s = s.
Proof. now destruct s. Qed.

Lemma set_intHandle_twice v w s : set_intHandle v (set_intHandle w s) = set_intHandle v s.
Proof. reflexivity. Qed.

(** X1. On a live object with no instance registered, [begin] followed
    by [end] both return [true] and leave [intHandle] and every object as
    they were. The pins are not put back: the actions are those of [begin]
    followed by those of [end], after which both pins are in mode
    [INPUT_PULLUP], whatever their mode was, and [isr] is attached to the
    interrupt of neither pin. On the registered object, [end] followed by
    [begin] likewise both return [true] and leave [intHandle] and every
    object as they were, with [isr] attached to the interrupts of both
    pins afterwards. *)
Theorem begin_end_round_trip d2i this s e :
  heap s !! this = Some e ->
  (intHandle s = None ->
     exists s1,
       begin d2i this s = Done true s1 (begin_events d2i this e) /\
       end_ d2i this s1 = Done true s (end_events d2i this e) /\
       (forall m,
          mode_after (pinA_of (dyntype e)) m
            (begin_events d2i this e ++ end_events d2i this e) = Some INPUT_PULLUP /\
          mode_after (pinB_of (dyntype e)) m
            (begin_events d2i this e ++ end_events d2i this e) = Some INPUT_PULLUP) /\
       (forall a,
          attached_after (d2i (pinA_of (dyntype e))) a
            (begin_events d2i this e ++ end_events d2i this e) = false /\
          attached_after (d2i (pinB_of (dyntype e))) a
            (begin_events d2i this e ++ end_events d2i this e) = false)) /\
  (intHandle s = Some this ->
     exists s1,
       end_ d2i this s = Done true s1 (end_events d2i this e) /\
       begin d2i this s1 = Done true s (begin_events d2i this e) /\
       (forall a,
          attached_after (d2i (pinA_of (dyntype e))) a
            (end_events d2i this e ++ begin_events d2i this e) = true /\
          attached_after (d2i (pinB_of (dyntype e))) a
            (end_events d2i this e ++ begin_events d2i this e) = true)).
Proof.
  intros H. split; intros Hh.
  - eexists. split; [apply (begin_free _ _ _ _ H Hh)|]. split; [|split].
    + erewrite end_registered by (cbn [heap intHandle set_intHandle]; eauto).
      rewrite set_intHandle_twice, <- Hh, set_intHandle_same. reflexivity.
    + intros m. unfold begin_events, end_events. cbn [app mode_after].
      rewrite !Z.eqb_refl.
      repeat match goal with |- context [?x =? ?y] => destruct (x =? y) end;
        split; reflexivity.
    + intros a. unfold begin_events, end_events. cbn [app attached_after].
      rewrite !Z.eqb_refl.
      repeat match goal with |- context [?x =? ?y] => destruct (x =? y) end;
        split; reflexivity.
  - eexists. split; [apply (end_registered _ _ _ _ H Hh)|]. split.
    + erewrite begin_free by (cbn [heap intHandle set_intHandle]; eauto).
      rewrite set_intHandle_twice, <- Hh, set_intHandle_same. reflexivity.
    + intros a. unfold begin_events, end_events. cbn [app attached_after].
      rewrite !Z.eqb_refl.
      repeat match goal with |- context [?x =? ?y] => destruct (x =? y) end;
        split; reflexivity.
Qed.

(** X2. After [end] has returned [true], the interrupt vector reaches no
    object: [isr] loads [intHandle], finds [NULL] and leaves the state as
    it is, whatever the pins show. *)
Theorem late_interrupt_ignored d2i this s e :
  heap s !! this = Some e ->
  intHandle s = Some this ->
  exists s1 tr,
    end_ d2i this s = Done true s1 tr /\
    forall level fuel, isr level fuel s1 = Done tt s1 [EvLoadHandle None].
Proof.
  intros H Hh. eexists _, _. split; [apply (end_registered _ _ _ _ H Hh)|].
  intros level fuel. now apply isr_unregistered.
Qed.

(** What [isr] does when it returns. *)
Lemma isr_Done level fuel s s' tr :
  isr level fuel s = Done tt s' tr ->
  (intHandle s = None /\ s' = s) \/
  (exists h e e' n,
     intHandle s = Some h /\ heap s !! h = Some e /\
     s' = {| intHandle := intHandle s; heap := <[h := e']> (heap s); reads := n |}).
Proof.
  destruct (intHandle s) as [h|] eqn:Hh.
  - rewrite (isr_registered _ _ _ _ Hh).
    destruct (intr level fuel h s) as [[] s1 t1| |] eqn:Hi; try discriminate.
    cbn [prepend]. intros [= <- _]. right.
    destruct (heap s !! h) as [e|] eqn:He.
    + destruct (intr_Done _ _ _ _ _ _ _ He Hi) as (n & pre & _ & _ & -> & _).
      rewrite Hh. eauto 8.
    + unfold intr in Hi. now rewrite bind_deref_dead in Hi.
  - rewrite (isr_unregistered _ _ _ Hh). intros [= <- _]. now left.
Qed.

(** X3. [isr] never changes [intHandle] and never changes an object
    other than the registered one; with no instance registered it changes
    nothing. *)
Theorem isr_changes_only_registered level fuel s s' tr :
  isr level fuel s = Done tt s' tr ->
  intHandle s' = intHandle s /\
  (forall a, intHandle s <> Some a -> heap s' !! a = heap s !! a) /\
  (intHandle s = None -> s' = s).
Proof.
  intros Hi. destruct (isr_Done _ _ _ _ _ Hi) as [[Hn ->]|(h & e & e' & n & Hh & He & ->)].
  - auto.
  - cbn [intHandle heap]. split; [reflexivity|]. split.
    + intros a Ha. apply lookup_insert_ne. congruence.
    + congruence.
Qed.

Lemma destroy_run_other d2i this s e :
  heap s !! this = Some e ->
  intHandle s <> Some this ->
  destroy d2i this s =
    Done tt (set_heap (delete this (heap s)) s) [EvLoadHandle (intHandle s)].
Proof.
  intros H Hh. rewrite (destroy_unfold _ _ _ _ H).
  erewrite end_other by (cbn [heap intHandle set_heap]; first [apply lookup_insert_eq|exact Hh]).
  unfold set_heap. cbn [heap intHandle reads]. now rewrite delete_insert_eq.
Qed.

Lemma destroy_run_registered d2i this s e :
  heap s !! this = Some e ->
  intHandle s = Some this ->
  destroy d2i this s =
    Done tt (set_intHandle None (set_heap (delete this (heap s)) s))
      (end_events d2i this (set_dyntype TRotEncoder e)).
Proof.
  intros H Hh. rewrite (destroy_unfold _ _ _ _ H).
  erewrite end_registered by (cbn [heap intHandle set_heap]; first [apply lookup_insert_eq|exact Hh]).
  unfold set_heap, set_intHandle. cbn [heap intHandle reads].
  now rewrite delete_insert_eq.
Qed.

(** X13. Destroying a live object that is not the registered one loads
    [intHandle], releases the object and changes nothing else: the
    registration of another instance and every other object stay. *)
Theorem destroy_unregistered d2i this s e :
  heap s !! this = Some e ->
  intHandle s <> Some this ->
  exists s' tr,
    destroy d2i this s = Done tt s' tr /\
    intHandle s' = intHandle s /\
    heap s' !! this = None /\
    (forall other, other <> this -> heap s' !! other = heap s !! other) /\
    tr = [EvLoadHandle (intHandle s)].
Proof.
  intros H Hh. eexists _, _. split; [apply (destroy_run_other _ _ _ _ H Hh)|].
  cbn [heap intHandle set_heap]. split; [reflexivity|].
  split; [apply lookup_delete_eq|]. split; [|reflexivity].
  intros other Hne. now apply lookup_delete_ne.
Qed.

(** X12. For a registered object of class [RotEncoderPins<a, b>], a call
    of [end] detaches the interrupts of pins [a] and [b], but destruction
    detaches those of pins 2 and 3: inside [~RotEncoder] the virtual
    [getPinA] and [getPinB] are those of the base class. *)
Theorem destroy_detaches_base_pins d2i this s e a b :
  heap s !! this = Some e ->
  dyntype e = TRotEncoderPins a b ->
  intHandle s = Some this ->
  end_ d2i this s =
    Done true (set_intHandle None s)
      [ EvLoadHandle (Some this); EvAtomicEnter; EvStoreHandle None; EvAtomicLeave;
        EvDetachInterrupt (d2i a); EvDetachInterrupt (d2i b) ] /\
  destroy d2i this s =
    Done tt (set_intHandle None (set_heap (delete this (heap s)) s))
      [ EvLoadHandle (Some this); EvAtomicEnter; EvStoreHandle None; EvAtomicLeave;
        EvDetachInterrupt (d2i 2); EvDetachInterrupt (d2i 3) ].
Proof.
  intros H Ht Hh. split.
  - rewrite (end_registered _ _ _ _ H Hh). unfold end_events. now rewrite Ht.
  - now rewrite (destroy_run_registered _ _ _ _ H Hh).
Qed.

(** ** No dangling registration *)

Lemma run_op_slot_live d2i level op s s' tr :
  run_op d2i level op s = Done tt s' tr -> slot_live s -> slot_live s'.
Proof.
  destruct op as [this t junk|this|this|this|this|fuel]; cbn [run_op]; intros Hop Hl.
  - unfold construct in Hop. destruct (heap s !! this) eqn:Hf; [discriminate|].
    injection Hop as <- _. intros h Hh. cbn [heap intHandle set_heap] in *.
    destruct (decide (this = h)) as [->|Hne].
    + rewrite lookup_insert_eq. eauto.
    + rewrite lookup_insert_ne by assumption. auto.
  - destruct (heap s !! this) as [e|] eqn:He.
    + destruct (decide (intHandle s = Some this)) as [Hr|Hr].
      * rewrite (destroy_run_registered _ _ _ _ He Hr) in Hop. injection Hop as <- _.
        intros h. discriminate.
      * rewrite (destroy_run_other _ _ _ _ He Hr) in Hop. injection Hop as <- _.
        intros h Hh. cbn [heap intHandle set_heap] in *.
        rewrite lookup_delete_ne by congruence. auto.
    + unfold destroy, bind, modify in Hop. now rewrite He in Hop.
  - apply bind_Done in Hop as (r & s1 & t1 & t2 & Hb & [= <- _] & _).
    destruct (heap s !! this) as [e|] eqn:He.
    + destruct (intHandle s) as [h0|] eqn:Hh0.
      * rewrite (begin_busy _ _ _ _ _ He Hh0) in Hb. now injection Hb as _ <- _.
      * rewrite (begin_free _ _ _ _ He Hh0) in Hb. injection Hb as _ <- _.
        intros h [= <-]. cbn [heap set_intHandle]. eauto.
    + unfold begin in Hb. now rewrite bind_deref_dead in Hb.
  - apply bind_Done in Hop as (r & s1 & t1 & t2 & Hb & [= <- _] & _).
    destruct (heap s !! this) as [e|] eqn:He.
    + destruct (decide (intHandle s = Some this)) as [Hr|Hr].
      * rewrite (end_registered _ _ _ _ He Hr) in Hb. injection Hb as _ <- _.
        intros h. discriminate.
      * rewrite (end_other _ _ _ _ He Hr) in Hb. now injection Hb as _ <- _.
    + unfold end_ in Hb. now rewrite bind_deref_dead in Hb.
  - apply bind_Done in Hop as (r & s1 & t1 & t2 & Hb & [= <- _] & _).
    destruct (heap s !! this) as [e|] eqn:He.
    + rewrite (getPosition_run _ _ _ He) in Hb. now injection Hb as _ <- _.
    + unfold getPosition in Hb. now rewrite bind_deref_dead in Hb.
  - destruct (isr_Done _ _ _ _ _ Hop) as [[_ ->]|(h0 & e & e' & n & Hh0 & He & ->)];
      [assumption|].
    intros h Hh. cbn [heap intHandle] in *.
    destruct (decide (h0 = h)) as [->|Hne].
    + rewrite lookup_insert_eq. eauto.
    + rewrite lookup_insert_ne by assumption. auto.
Qed.

(** X4. Whatever a program does with the class (constructing and
    destroying objects, [begin], [end], [getPosition], interrupts), as long
    as its behaviour is defined the registered pointer never dangles: from
    a state in which [intHandle] is [NULL] or points to a live object, every
    sequence of operations ends in such a state. *)
Theorem registration_never_dangles d2i level ops : forall s s' tr,
  slot_live s ->
  run_ops d2i level ops s = Done tt s' tr ->
  slot_live s'.
Proof.
  induction ops as [|op ops IH]; intros s s' tr Hl; cbn [run_ops].
  - now intros [= <- _].
  - intros Hr. apply bind_Done in Hr as ([] & s1 & t1 & t2 & Hop & Hrest & _).
    eapply IH; [|exact Hrest]. eapply run_op_slot_live; eauto.
Qed.

(** ** The decoder, continued *)

Lemma fold_no_engagement obs : forall e,
  cntflg e = false ->
  ~ In (true, true) obs ->
  position (fold_left (fun e ab => handle ab e) obs e) = position e /\
  cntflg (fold_left (fun e ab => handle ab e) obs e) = false.
Proof.
  induction obs as [|[a b] obs IH]; intros e Hc Hn; cbn [fold_left]; [auto|].
  assert (Hh : position (handle (a, b) e) = position e /\ cntflg (handle (a, b) e) = false).
  { destruct e as [t p c l a0 b0]. cbn in Hc. subst c.
    destruct a, b; [exfalso; apply Hn; now left| | |]; destruct l; cbn; auto. }
  destruct Hh as [Hp Hc'].
  destruct (IH (handle (a, b) e) Hc') as [-> ->]; [|auto].
  intros Hin. apply Hn. now right.
Qed.

(** X5. From a state in which [cntflg] is clear, a run of the handler in
    which no invocation samples (1,1) leaves the counter as it is, however
    many times and in whatever order the other three states are sampled;
    [cntflg] is still clear afterwards. *)
Theorem no_engagement_no_count level this obs s s' e :
  heap s !! this = Some e ->
  cntflg e = false ->
  ~ In (true, true) obs ->
  observed_run level this obs s s' ->
  exists e', heap s' !! this = Some e' /\ position e' = position e /\ cntflg e' = false.
Proof.
  intros H Hc Hn Hrun.
  eexists. split; [apply (observed_run_lookup _ _ _ _ _ _ Hrun H)|].
  now apply fold_no_engagement.
Qed.

(** One invocation steps the counter by [d] with [|d| <= 1], and a step
    uses up a pending (1,1). *)
Lemma handle_step ab e :
  in_long (position e) ->
  in_long (position (handle ab e)) /\
  exists d,
    position (handle ab e) = wrap_long (position e + d) /\
    Z.abs d + (if cntflg (handle ab e) then 1 else 0)
    <= (if ab.1 && ab.2 then 1 else 0) + (if cntflg e then 1 else 0).
Proof.
  intros Hin. destruct ab as [a b], e as [t p c l a0 b0].
  cbn [position] in Hin.
  split.
  - unfold handle. rewrite transition_position.
    cbn [with_inputs inA inB lrflg cntflg position fst snd].
    destruct (_ && c); [apply wrap_long_range|].
    destruct (_ && c); [apply wrap_long_range|exact Hin].
  - exists (if a && negb b && negb l && c then 1
            else if negb a && b && l && c then -1 else 0).
    destruct a, b, l, c; cbn;
      rewrite ?Z.add_0_r, ?(wrap_long_id p Hin); (split; [reflexivity|lia]).
Qed.

Lemma engagements_cons ab obs :
  Z.of_nat (engagements (ab :: obs))
  = (if ab.1 && ab.2 then 1 else 0) + Z.of_nat (engagements obs).
Proof. destruct ab as [[] []]; cbn [engagements fst snd andb]; lia. Qed.

Lemma fold_count_bound obs : forall e,
  in_long (position e) ->
  exists d,
    Z.abs d <= Z.of_nat (engagements obs) + (if cntflg e then 1 else 0) /\
    position (fold_left (fun e ab => handle ab e) obs e) = wrap_long (position e + d).
Proof.
  induction obs as [|ab obs IH]; intros e Hin.
  - exists 0. cbn [fold_left engagements]. rewrite Z.add_0_r, (wrap_long_id _ Hin).
    split; [destruct (cntflg e); cbn; lia|reflexivity].
  - cbn [fold_left]. destruct (handle_step ab e Hin) as (Hin1 & d0 & Hp0 & Hb0).
    destruct (IH (handle ab e) Hin1) as (d1 & Hb1 & Hp1).
    exists (d0 + d1). rewrite engagements_cons. split; [lia|].
    rewrite Hp1, Hp0, wrap_long_add. f_equal. lia.
Qed.

(** X6. Over any run of the handler the counter, which holds a [long],
    moves in 32-bit arithmetic by some [d] that is at most, in absolute
    value, the number of invocations that sampled (1,1), plus one when
    [cntflg] was already set at the start; when the counter is at least that
    far from both ends of the range of [long], it moves by at most that
    much. *)
Theorem count_bounded_by_engagements level this obs s s' e :
  heap s !! this = Some e ->
  in_long (position e) ->
  observed_run level this obs s s' ->
  exists e' d,
    heap s' !! this = Some e' /\
    Z.abs d <= Z.of_nat (engagements obs) + (if cntflg e then 1 else 0) /\
    position e' = wrap_long (position e + d) /\
    (LONG_MIN + (Z.of_nat (engagements obs) + (if cntflg e then 1 else 0)) <= position e
       <= LONG_MAX - (Z.of_nat (engagements obs) + (if cntflg e then 1 else 0)) ->
     Z.abs (position e' - position e)
     <= Z.of_nat (engagements obs) + (if cntflg e then 1 else 0)).
Proof.
  intros H Hin Hrun.
  destruct (fold_count_bound obs e Hin) as (d & Hd & Hp).
  eexists _, d. split; [apply (observed_run_lookup _ _ _ _ _ _ Hrun H)|].
  split; [exact Hd|]. split; [exact Hp|].
  intros Hroom. rewrite Hp, wrap_long_id; [|unfold in_long]; lia.
Qed.

(** X7. A step through (1,1) counts by the side it comes from: on a
    counter that holds a [long], sampling (1,1) and then (1,0) adds 1 (in
    32-bit arithmetic: from [LONG_MAX] to [LONG_MIN]) when [lrflg] was clear
    and nothing when it was set; sampling (1,1) and then (0,1) subtracts 1
    (from [LONG_MIN] to [LONG_MAX]) when [lrflg] was set and nothing when it
    was clear. Afterwards [lrflg] tells the side reached and [cntflg] is
    clear. *)
Theorem step_counts_by_side level this s s' e :
  heap s !! this = Some e ->
  in_long (position e) ->
  (observed_run level this [(true, true); (true, false)] s s' ->
     exists e', heap s' !! this = Some e' /\
       position e' = (if lrflg e then position e else wrap_long (position e + 1)) /\
       (position e < LONG_MAX ->
          position e' = position e + (if lrflg e then 0 else 1)) /\
       lrflg e' = true /\ cntflg e' = false) /\
  (observed_run level this [(true, true); (false, true)] s s' ->
     exists e', heap s' !! this = Some e' /\
       position e' = (if lrflg e then wrap_long (position e - 1) else position e) /\
       (LONG_MIN < position e ->
          position e' = position e - (if lrflg e then 1 else 0)) /\
       lrflg e' = false /\ cntflg e' = false).
Proof.
  intros H Hin. split; intros Hrun;
    (eexists; split; [apply (observed_run_lookup _ _ _ _ _ _ Hrun H)|]);
    destruct e as [t p c l a b]; cbn [position lrflg] in *; destruct l; cbn;
    (split; [reflexivity|]); (split; [|split; reflexivity]); intros Hb;
    first [ apply wrap_long_succ | apply wrap_long_pred | lia ];
    first [ assumption | unfold in_long in Hin; lia ].
Qed.

Lemma cycle_ccw e :
  cntflg e = false ->
  position (fold_left (fun e ab => handle ab e) counter_clockwise e)
    = wrap_long (position e + 1) /\
  cntflg (fold_left (fun e ab => handle ab e) counter_clockwise e) = false.
Proof.
  destruct e as [t p c l a b]. cbn [cntflg]. intros ->. destruct l; split; reflexivity.
Qed.

Lemma cycle_cw e :
  cntflg e = false ->
  position (fold_left (fun e ab => handle ab e) clockwise e)
    = wrap_long (position e - 1) /\
  cntflg (fold_left (fun e ab => handle ab e) clockwise e) = false.
Proof.
  destruct e as [t p c l a b]. cbn [cntflg]. intros ->. destruct l; split; reflexivity.
Qed.

Lemma fold_turns_ccw k : forall e,
  cntflg e = false ->
  in_long (position e) ->
  position (fold_left (fun e ab => handle ab e) (turns k counter_clockwise) e)
    = wrap_long (position e + Z.of_nat k).
Proof.
  induction k as [|k IH]; intros e Hc Hin; cbn [turns].
  - cbn [fold_left Z.of_nat]. now rewrite Z.add_0_r, wrap_long_id.
  - destruct (cycle_ccw e Hc) as [Hp Hc'].
    rewrite fold_left_app, IH, Hp, wrap_long_add; [|assumption|].
    + f_equal. lia.
    + rewrite Hp. apply wrap_long_range.
Qed.

Lemma fold_turns_cw k : forall e,
  cntflg e = false ->
  in_long (position e) ->
  position (fold_left (fun e ab => handle ab e) (turns k clockwise) e)
    = wrap_long (position e - Z.of_nat k).
Proof.
  induction k as [|k IH]; intros e Hc Hin; cbn [turns].
  - cbn [fold_left Z.of_nat]. now rewrite Z.sub_0_r, wrap_long_id.
  - destruct (cycle_cw e Hc) as [Hp Hc'].
    rewrite fold_left_app, IH, Hp, wrap_long_sub; [|assumption|].
    + f_equal. lia.
    + rewrite Hp. apply wrap_long_range.
Qed.

(** X8. Cycles add up: on a counter that holds a [long], from a state in
    which [cntflg] is clear, [k] times the cycle (0,0), (0,1), (1,1), (1,0),
    (0,0) adds exactly [k] in 32-bit arithmetic, and [k] times the cycle
    (0,0), (1,0), (1,1), (0,1), (0,0) subtracts exactly [k]; as long as the
    result stays in the range of [long] it is the exact sum or
    difference. *)
Theorem cycles_accumulate level this k s s' e :
  heap s !! this = Some e ->
  cntflg e = false ->
  in_long (position e) ->
  (observed_run level this (turns k counter_clockwise) s s' ->
     exists e', heap s' !! this = Some e' /\
       position e' = wrap_long (position e + Z.of_nat k) /\
       (position e + Z.of_nat k <= LONG_MAX -> position e' = position e + Z.of_nat k)) /\
  (observed_run level this (turns k clockwise) s s' ->
     exists e', heap s' !! this = Some e' /\
       position e' = wrap_long (position e - Z.of_nat k) /\
       (LONG_MIN <= position e - Z.of_nat k -> position e' = position e - Z.of_nat k)).
Proof.
  intros H Hc Hin. split; intros Hrun;
    (eexists; split; [apply (observed_run_lookup _ _ _ _ _ _ Hrun H)|]).
  - rewrite (fold_turns_ccw k e Hc Hin). split; [reflexivity|].
    intros Hb. apply wrap_long_id. unfold in_long in *. lia.
  - rewrite (fold_turns_cw k e Hc Hin). split; [reflexivity|].
    intros Hb. apply wrap_long_id. unfold in_long in *. lia.
Qed.

(** ** The re-sampling loop, continued *)

(** X9. The loop has no bound of its own: on a live object, when the
    level of pin A differs between every read and the next read but one,
    the loop never ends (no amount of fuel gives a result), and neither does
    [intr]. *)
Theorem resample_never_settles level this : forall fuel s e,
  heap s !! this = Some e ->
  (forall n, (reads s <= n)%nat ->
     level n (pinA_of (dyntype e)) <> level (2 + n)%nat (pinA_of (dyntype e))) ->
  resample level fuel this s = OutOfFuel /\
  intr level fuel this s = OutOfFuel.
Proof.
  assert (Hloop : forall fuel s e,
    heap s !! this = Some e ->
    (forall n, (reads s <= n)%nat ->
       level n (pinA_of (dyntype e)) <> level (2 + n)%nat (pinA_of (dyntype e))) ->
    resample level fuel this s = OutOfFuel).
  { induction fuel as [|fuel IH]; intros s e H Hch; [reflexivity|].
    rewrite (resample_round _ _ _ _ _ H).
    assert (Hne : eqb (level (reads s) (pinA_of (dyntype e)))
                      (level (2 + reads s)%nat (pinA_of (dyntype e))) = false).
    { apply eqb_false_iff, Hch. lia. }
    unfold agrees, round_reads. rewrite Hne. cbn [andb].
    erewrite IH; [reflexivity| |].
    - unfold after_round. cbn [heap]. apply lookup_insert_eq.
    - unfold after_round. cbn [reads dyntype with_inputs]. intros n Hn. apply Hch. lia. }
  intros fuel s e H Hch. split; [now apply (Hloop fuel s e)|].
  rewrite (intr_unfold _ _ _ _ _ H), (Hloop fuel s e H Hch). reflexivity.
Qed.

Lemma resample_reads_only level this : forall fuel s s' tr,
  resample level fuel this s = Done tt s' tr ->
  forallb is_read tr = true.
Proof.
  induction fuel as [|fuel IH]; intros s s' tr; [discriminate|].
  destruct (heap s !! this) as [e|] eqn:H.
  - rewrite (resample_round _ _ _ _ _ H).
    destruct (agrees level (dyntype e) (reads s)).
    + now intros [= _ <-].
    + destruct (resample level fuel this _) as [[] s2 t2| |] eqn:Hr; try discriminate.
      cbn [prepend]. intros [= _ <-]. rewrite forallb_app, (IH _ _ _ Hr), andb_true_r.
      unfold round_reads, round_events. destruct (eqb _ _); reflexivity.
  - cbn [resample]. unfold rdPinA, getPinA, bind, deref. now rewrite H.
Qed.

Lemma mode_after_app pin t1 : forall m t2,
  mode_after pin m (t1 ++ t2) = mode_after pin (mode_after pin m t1) t2.
Proof.
  induction t1 as [|ev t1 IH]; intros m t2; [reflexivity|].
  destruct ev; cbn [app mode_after]; apply IH.
Qed.

Lemma mode_after_reads pin tr : forall m,
  forallb is_read tr = true -> mode_after pin m tr = m.
Proof.
  induction tr as [|ev tr IH]; intros m; [reflexivity|].
  destruct ev; cbn [forallb is_read andb mode_after]; try discriminate. apply IH.
Qed.

(** X11. The pull-ups after the handler: when pins A and B are different
    pins, an invocation of [intr] that returns leaves pin A as [OUTPUT]
    exactly when it sampled (1,0) and as [INPUT_PULLUP] otherwise, and pin
    B as [OUTPUT] exactly when it sampled (0,1) and as [INPUT_PULLUP]
    otherwise, whatever the modes were before. *)
Theorem intr_pin_modes level fuel this s e s' tr e' mA mB :
  heap s !! this = Some e ->
  pinA_of (dyntype e) <> pinB_of (dyntype e) ->
  intr level fuel this s = Done tt s' tr ->
  heap s' !! this = Some e' ->
  mode_after (pinA_of (dyntype e)) mA tr
    = Some (if inA e' && negb (inB e') then OUTPUT else INPUT_PULLUP) /\
  mode_after (pinB_of (dyntype e)) mB tr
    = Some (if negb (inA e') && inB e' then OUTPUT else INPUT_PULLUP).
Proof.
  intros H Hne Hi He'.
  rewrite (intr_unfold _ _ _ _ _ H) in Hi.
  destruct (resample level fuel this s) as [[] s1 t1| |] eqn:Hr; try discriminate.
  pose proof (resample_reads_only _ _ _ _ _ _ Hr) as Hreads.
  destruct (resample_Done level fuel this s e _ _ H Hr) as (n & pre & _ & _ & -> & _).
  erewrite classify_run in Hi by (cbn [heap]; apply lookup_insert_eq).
  cbn [prepend] in Hi. injection Hi as <- <-.
  unfold set_heap in He'. cbn [heap] in He'.
  rewrite insert_insert_eq, lookup_insert_eq in He'. injection He' as <-.
  assert (HAB : (pinA_of (dyntype e) =? pinB_of (dyntype e)) = false) by now apply Z.eqb_neq.
  assert (HBA : (pinB_of (dyntype e) =? pinA_of (dyntype e)) = false)
    by (apply Z.eqb_neq; congruence).
  destruct e as [t p c l a0 b0]. cbn [dyntype] in *.
  split.
  - cbn [app mode_after]. rewrite ?Z.eqb_refl, ?HBA, !mode_after_app.
    rewrite (mode_after_reads _ t1) by assumption.
    unfold classify_events, with_inputs. cbn [inA inB dyntype lrflg cntflg position].
    destruct (sampleA level t n), (sampleB level t n), l, c;
      cbn; rewrite ?Z.eqb_refl, ?HBA; reflexivity.
  - cbn [app mode_after]. rewrite ?Z.eqb_refl, ?HAB, !mode_after_app.
    rewrite (mode_after_reads _ t1) by assumption.
    unfold classify_events, with_inputs. cbn [inA inB dyntype lrflg cntflg position].
    destruct (sampleA level t n), (sampleB level t n), l, c;
      cbn; rewrite ?Z.eqb_refl, ?HAB; reflexivity.
Qed.

Lemma reads_are_handler_actions tr :
  forallb is_read tr = true -> forallb handler_action tr = true.
Proof.
  induction tr as [|ev tr IH]; [reflexivity|].
  destruct ev; cbn [forallb is_read handler_action andb]; try discriminate. exact IH.
Qed.

(** X14. What the handler never does: an invocation of [intr] that
    returns has not accessed [intHandle], has attached or detached no
    interrupt, has entered no atomic block and has driven no pin [HIGH]; it
    leaves [intHandle] as it is. *)
Theorem intr_actions level fuel this s s' tr :
  intr level fuel this s = Done tt s' tr ->
  forallb handler_action tr = true /\ intHandle s' = intHandle s.
Proof.
  destruct (heap s !! this) as [e|] eqn:H.
  - intros Hi.
    destruct (intr_Done _ _ _ _ _ _ _ H Hi) as (n & pre & _ & _ & -> & _).
    split; [|reflexivity].
    rewrite (intr_unfold _ _ _ _ _ H) in Hi.
    destruct (resample level fuel this s) as [[] s1 t1| |] eqn:Hr; try discriminate.
    pose proof (reads_are_handler_actions _ (resample_reads_only _ _ _ _ _ _ Hr)) as Hreads.
    destruct (resample_Done level fuel this s e _ _ H Hr) as (n' & pre' & _ & _ & -> & _).
    erewrite classify_run in Hi by (cbn [heap]; apply lookup_insert_eq).
    cbn [prepend] in Hi.
    apply (f_equal (fun o => match o with Done _ _ t => t | _ => [] end)) in Hi.
    subst tr. cbn [app forallb handler_action andb]. rewrite !forallb_app, Hreads.
    cbn [andb forallb handler_action]. rewrite andb_true_r.
    unfold classify_events, with_inputs. cbn [inA inB lrflg cntflg].
    destruct (sampleA level _ n'), (sampleB level _ n'), (lrflg e), (cntflg e);
      reflexivity.
  - unfold intr. now rewrite bind_deref_dead.
Qed.

(** ** Examples, continued *)

Lemma begin_end_round_trip_witness :
  heap constructed !! 1%positive = Some fresh_encoder /\
  (exists s1,
     begin nano_digitalPinToInterrupt 1 constructed
       = Done true s1 (begin_events nano_digitalPinToInterrupt 1 fresh_encoder) /\
     end_ nano_digitalPinToInterrupt 1 s1
       = Done true constructed (end_events nano_digitalPinToInterrupt 1 fresh_encoder) /\
     mode_after 2 (Some OUTPUT)
       (begin_events nano_digitalPinToInterrupt 1 fresh_encoder
        ++ end_events nano_digitalPinToInterrupt 1 fresh_encoder) = Some INPUT_PULLUP /\
     attached_after 0 true
       (begin_events nano_digitalPinToInterrupt 1 fresh_encoder
        ++ end_events nano_digitalPinToInterrupt 1 fresh_encoder) = false) /\
  (exists s1,
     end_ nano_digitalPinToInterrupt 1 started
       = Done true s1 (end_events nano_digitalPinToInterrupt 1 fresh_encoder) /\
     begin nano_digitalPinToInterrupt 1 s1
       = Done true started (begin_events nano_digitalPinToInterrupt 1 fresh_encoder) /\
     attached_after 1 false
       (end_events nano_digitalPinToInterrupt 1 fresh_encoder
        ++ begin_events nano_digitalPinToInterrupt 1 fresh_encoder) = true).
Proof.
  split; [reflexivity|]. split.
  - destruct (proj1 (begin_end_round_trip nano_digitalPinToInterrupt 1 constructed
                       fresh_encoder eq_refl) eq_refl) as (s1 & Hb & He & Hm & Ha).
    exists s1. split; [exact Hb|]. split; [exact He|].
    split; [exact (proj1 (Hm (Some OUTPUT)))|exact (proj1 (Ha true))].
  - destruct (proj2 (begin_end_round_trip nano_digitalPinToInterrupt 1 started
                       fresh_encoder eq_refl) eq_refl) as (s1 & He & Hb & Ha).
    exists s1. split; [exact He|]. split; [exact Hb|exact (proj2 (Ha false))].
Defined.

Lemma late_interrupt_ignored_witness :
  heap started !! 1%positive = Some fresh_encoder /\
  intHandle started = Some 1%positive /\
  exists s1 tr,
    end_ nano_digitalPinToInterrupt 1 started = Done true s1 tr /\
    forall level fuel, isr level fuel s1 = Done tt s1 [EvLoadHandle None].
Proof.
  split; [reflexivity|]. split; [reflexivity|].
  exact (late_interrupt_ignored nano_digitalPinToInterrupt 1 started fresh_encoder
           eq_refl eq_refl).
Defined.

Lemma isr_changes_only_registered_witness :
  exists s' tr,
    isr (levels_of [(true, true)]) 1 started = Done tt s' tr /\
    intHandle s' = intHandle started /\
    (forall a, intHandle started <> Some a -> heap s' !! a = heap started !! a) /\
    (intHandle started = None -> s' = started).
Proof.
  assert (Hi : exists s' tr, isr (levels_of [(true, true)]) 1 started = Done tt s' tr)
    by (eexists _, _; vm_compute; reflexivity).
  destruct Hi as (s' & tr & Hi). exists s', tr. split; [exact Hi|].
  exact (isr_changes_only_registered _ _ _ _ _ Hi).
Defined.

Lemma startup_slot_live : slot_live startup.
Proof. intros h Hh. discriminate Hh. Defined.

Lemma registration_never_dangles_witness :
  let ops :=
    [ OpNew 1 TRotEncoder (true, false, true); OpBegin 1; OpInterrupt 1;
      OpGetPosition 1; OpNew 2 (TRotEncoderPins 4 5) (false, false, false);
      OpBegin 2; OpDelete 1; OpInterrupt 1; OpBegin 2; OpInterrupt 1; OpDelete 2 ] in
  slot_live startup /\
  exists s' tr,
    run_ops nano_digitalPinToInterrupt (levels_of [(true, true)]) ops startup
      = Done tt s' tr /\
    slot_live s'.
Proof.
  intros ops. split; [exact startup_slot_live|].
  assert (Hr : exists s' tr,
             run_ops nano_digitalPinToInterrupt (levels_of [(true, true)]) ops startup
               = Done tt s' tr)
    by (eexists _, _; vm_compute; reflexivity).
  destruct Hr as (s' & tr & Hr). exists s', tr. split; [exact Hr|].
  exact (registration_never_dangles _ _ ops startup s' tr startup_slot_live Hr).
Defined.

Lemma destroy_unregistered_witness :
  let other := set_dyntype (TRotEncoderPins 4 5) fresh_encoder in
  let s := set_heap (<[2%positive := other]> (heap started)) started in
  heap s !! 2%positive = Some other /\
  intHandle s <> Some 2%positive /\
  exists s' tr,
    destroy nano_digitalPinToInterrupt 2 s = Done tt s' tr /\
    intHandle s' = Some 1%positive /\
    heap s' !! 1%positive = Some fresh_encoder.
Proof.
  intros other s.
  assert (Hl : heap s !! 2%positive = Some other) by reflexivity.
  assert (Hh : intHandle s <> Some 2%positive) by discriminate.
  split; [exact Hl|]. split; [exact Hh|].
  destruct (destroy_unregistered nano_digitalPinToInterrupt 2 s other Hl Hh)
    as (s' & tr & Hd & Hi & _ & Ho & _).
  exists s', tr. split; [exact Hd|]. split; [exact Hi|].
  rewrite Ho by discriminate. reflexivity.
Defined.

Lemma destroy_detaches_base_pins_witness :
  let e := set_dyntype (TRotEncoderPins 4 5) fresh_encoder in
  let s := set_heap {[ 1%positive := e ]} started in
  heap s !! 1%positive = Some e /\
  end_ (fun pin => pin) 1 s =
    Done true (set_intHandle None s)
      [ EvLoadHandle (Some 1%positive); EvAtomicEnter; EvStoreHandle None; EvAtomicLeave;
        EvDetachInterrupt 4; EvDetachInterrupt 5 ] /\
  destroy (fun pin => pin) 1 s =
    Done tt (set_intHandle None (set_heap (delete 1%positive (heap s)) s))
      [ EvLoadHandle (Some 1%positive); EvAtomicEnter; EvStoreHandle None; EvAtomicLeave;
        EvDetachInterrupt 2; EvDetachInterrupt 3 ].
Proof.
  intros e s. split; [reflexivity|].
  exact (destroy_detaches_base_pins (fun pin => pin) 1 s e 4 5 eq_refl eq_refl eq_refl).
Defined.

Lemma no_engagement_no_count_witness :
  let obs := [(true, false); (false, false); (false, true); (true, false)] in
  ~ In (true, true) obs /\
  exists s',
    observed_run (levels_of obs) 1 obs started s' /\
    exists e', heap s' !! 1%positive = Some e' /\ position e' = 0 /\ cntflg e' = false.
Proof.
  intros obs.
  assert (Hn : ~ In (true, true) obs).
  { intros [H|[H|[H|[H|[]]]]]; discriminate H. }
  split; [exact Hn|].
  assert (H : exists s', observed_run (levels_of obs) 1 obs started s')
    by (eexists; run_example).
  destruct H as [s' H]. exists s'. split; [exact H|].
  exact (no_engagement_no_count _ 1 obs started s' fresh_encoder eq_refl eq_refl Hn H).
Defined.

Lemma count_bounded_by_engagements_witness :
  in_long 0 /\
  exists s',
    observed_run (levels_of clockwise) 1 clockwise started s' /\
    exists e' d,
      heap s' !! 1%positive = Some e' /\
      Z.abs d <= 1 + 0 /\
      position e' = wrap_long (0 + d) /\
      Z.abs (position e' - 0) <= 1 + 0.
Proof.
  assert (Hin : in_long 0) by (split; discriminate).
  split; [exact Hin|].
  assert (H : exists s', observed_run (levels_of clockwise) 1 clockwise started s')
    by (eexists; run_example).
  destruct H as [s' H]. exists s'. split; [exact H|].
  destruct (count_bounded_by_engagements _ 1 clockwise started s' fresh_encoder
              eq_refl Hin H) as (e' & d & He' & Hd & Hp & Hroom).
  exists e', d. split; [exact He'|]. split; [exact Hd|]. split; [exact Hp|].
  apply Hroom. split; discriminate.
Defined.

Lemma step_counts_by_side_witness :
  in_long 0 /\
  exists s1 s2,
    observed_run (levels_of [(true, true); (true, false)]) 1
      [(true, true); (true, false)] started s1 /\
    observed_run (levels_of [(true, true); (false, true)]) 1
      [(true, true); (false, true)] started s2 /\
    (exists e', heap s1 !! 1%positive = Some e' /\
       position e' = 1 /\ lrflg e' = true /\ cntflg e' = false) /\
    (exists e', heap s2 !! 1%positive = Some e' /\
       position e' = 0 /\ lrflg e' = false /\ cntflg e' = false).
Proof.
  assert (Hin : in_long 0) by (split; discriminate).
  split; [exact Hin|].
  assert (H1 : exists s1, observed_run (levels_of [(true, true); (true, false)]) 1
                            [(true, true); (true, false)] started s1)
    by (eexists; run_example).
  assert (H2 : exists s2, observed_run (levels_of [(true, true); (false, true)]) 1
                            [(true, true); (false, true)] started s2)
    by (eexists; run_example).
  destruct H1 as [s1 H1], H2 as [s2 H2]. exists s1, s2.
  split; [exact H1|]. split; [exact H2|]. split.
  - destruct (proj1 (step_counts_by_side _ 1 started s1 fresh_encoder eq_refl Hin) H1)
      as (e' & He' & Hp & _ & Hl & Hc).
    exists e'. split; [exact He'|]. split; [exact Hp|]. split; [exact Hl|exact Hc].
  - destruct (proj2 (step_counts_by_side _ 1 started s2 fresh_encoder eq_refl Hin) H2)
      as (e' & He' & Hp & _ & Hl & Hc).
    exists e'. split; [exact He'|]. split; [exact Hp|]. split; [exact Hl|exact Hc].
Defined.

Lemma cycles_accumulate_witness :
  in_long 0 /\
  exists s1 s2,
    observed_run (levels_of (turns 2 counter_clockwise)) 1
      (turns 2 counter_clockwise) started s1 /\
    observed_run (levels_of (turns 2 clockwise)) 1 (turns 2 clockwise) started s2 /\
    (exists e', heap s1 !! 1%positive = Some e' /\ position e' = 2) /\
    (exists e', heap s2 !! 1%positive = Some e' /\ position e' = -2).
Proof.
  assert (Hin : in_long 0) by (split; discriminate).
  split; [exact Hin|].
  assert (H1 : exists s1, observed_run (levels_of (turns 2 counter_clockwise)) 1
                            (turns 2 counter_clockwise) started s1)
    by (eexists; cbn [turns app counter_clockwise]; run_example).
  assert (H2 : exists s2, observed_run (levels_of (turns 2 clockwise)) 1
                            (turns 2 clockwise) started s2)
    by (eexists; cbn [turns app clockwise]; run_example).
  destruct H1 as [s1 H1], H2 as [s2 H2]. exists s1, s2.
  split; [exact H1|]. split; [exact H2|]. split.
  - destruct (proj1 (cycles_accumulate _ 1 2 started s1 fresh_encoder eq_refl eq_refl Hin)
                H1) as (e' & He' & Hp & _).
    exists e'. split; [exact He'|exact Hp].
  - destruct (proj2 (cycles_accumulate _ 1 2 started s2 fresh_encoder eq_refl eq_refl Hin)
                H2) as (e' & He' & Hp & _).
    exists e'. split; [exact He'|exact Hp].
Defined.

Lemma chattering_changes pin n : chattering n pin <> chattering (2 + n) pin.
Proof.
  unfold chattering. cbn [Nat.add Nat.div2].
  rewrite Nat.even_succ, <- Nat.negb_even. destruct (Nat.even (Nat.div2 n)); discriminate.
Defined.

Lemma resample_never_settles_witness :
  heap started !! 1%positive = Some fresh_encoder /\
  resample chattering 1000 1 started = OutOfFuel /\
  intr chattering 1000 1 started = OutOfFuel.
Proof.
  split; [reflexivity|].
  exact (resample_never_settles chattering 1 1000 started fresh_encoder eq_refl
           (fun n _ => chattering_changes _ n)).
Defined.

Lemma intr_returns_witness :
  heap started !! 1%positive = Some fresh_encoder /\
  stable_from settling 6 (dyntype fresh_encoder) /\
  exists fuel s' tr, intr settling fuel 1 started = Done tt s' tr.
Proof.
  split; [reflexivity|]. split; [exact settling_stable|].
  exact (intr_returns settling 6 1 started fresh_encoder eq_refl settling_stable).
Defined.

Lemma intr_pin_modes_witness :
  exists s' tr e',
    intr (levels_of [(true, false)]) 1 1 started = Done tt s' tr /\
    heap s' !! 1%positive = Some e' /\
    mode_after 2 None tr = Some OUTPUT /\
    mode_after 3 None tr = Some INPUT_PULLUP.
Proof.
  assert (Hi : exists s' tr e',
             intr (levels_of [(true, false)]) 1 1 started = Done tt s' tr /\
             heap s' !! 1%positive = Some e' /\ inA e' = true /\ inB e' = false).
  { eexists _, _, _. split; [vm_compute; reflexivity|].
    split; [vm_compute; reflexivity|]. split; reflexivity. }
  destruct Hi as (s' & tr & e' & Hi & He' & Ha & Hb).
  exists s', tr, e'. split; [exact Hi|]. split; [exact He'|].
  assert (Hne : pinA_of (dyntype fresh_encoder) <> pinB_of (dyntype fresh_encoder))
    by discriminate.
  destruct (intr_pin_modes _ _ 1 started fresh_encoder s' tr e' None None
              eq_refl Hne Hi He') as [HA HB].
  rewrite Ha, Hb in HA, HB. split; [exact HA|exact HB].
Defined.

Lemma intr_actions_witness :
  let s := set_heap {[ 1%positive := set_cntflg true fresh_encoder ]} started in
  exists s' tr,
    intr (levels_of [(true, false)]) 1 1 s = Done tt s' tr /\
    forallb handler_action tr = true /\ intHandle s' = Some 1%positive.
Proof.
  intros s.
  assert (Hi : exists s' tr, intr (levels_of [(true, false)]) 1 1 s = Done tt s' tr)
    by (eexists _, _; vm_compute; reflexivity).
  destruct Hi as (s' & tr & Hi). exists s', tr. split; [exact Hi|].
  exact (intr_actions _ _ _ _ _ _ Hi).
Defined.
